(** * Kids Book Generator: generation, batch and provider-call behaviour

    A shallow embedding of the parts of the repository that the
    orchestration specification talks about:

    - the front-end services ([generationService], [batchService],
      [canvaService], [booksService], [authService]), the API helpers and
      interceptors they use, and the authentication context;
    - the generation progress tracker and the two pages that drive it
      ([BookCreatePage], [BookGenerationPage]);
    - the form validators, the form hook and the schema of the book form;
    - the provider-call patterns of the architecture document
      ([generate_with_retry], [APIQueue], [APIFallbackHandler] and the
      polling of Canva jobs);
    - the Book Pipeline, whose implementation lives in the back end: it is
      modelled from the specification and every such definition says so.

    Part I is the model, Part II the properties proved of it. *)

From Stdlib Require Import ZArith Lia QArith Qround Lqa.
From stdpp Require Import base option list gmap strings pretty.

(** * Part I: the model *)

(** ** JavaScript values used by the services *)

Module Js.

(** A value of TypeScript type [string | null | undefined]. *)
Inductive OptString : Type :=
| Undefined
| Null
| Str (s : string).

#[global] Instance OptString_eq_dec : EqDecision OptString.
Proof. solve_decision. Defined.

(** JavaScript truthiness of a string: only the empty string is falsy. *)
Definition truthy_string (s : string) : bool :=
  if decide (s = "") then false else true.

(** Truthiness of [string | null | undefined]. *)
Definition truthy (v : OptString) : bool :=
  match v with
  | Undefined | Null => false
  | Str s => truthy_string s
  end.

(** [v || ''] where [v : string | null | undefined]. *)
Definition or_empty (v : OptString) : string :=
  match v with
  | Str s => if truthy_string s then s else ""
  | Undefined | Null => ""
  end.

(** [s || undefined] where [s : string]. *)
Definition or_undefined (s : string) : OptString :=
  if truthy_string s then Str s else Undefined.

(** A string is held as the bytes of its UTF-8 form, while JavaScript
    counts the [length] of a string in UTF-16 code units: a character of
    one, two or three bytes is one unit, a character of four bytes is two
    (a surrogate pair).  The units are counted at the first byte of each
    character; a continuation byte (10xxxxxx) counts nothing. *)
Definition utf16_units (b : Ascii.ascii) : nat :=
  let n := Ascii.nat_of_ascii b in
  if (n <? 128)%nat then 1
  else if (n <? 192)%nat then 0
  else if (n <? 240)%nat then 1
  else 2.

(** [s.length]. *)
Fixpoint utf16_length (s : string) : nat :=
  match s with
  | EmptyString => 0
  | String b rest => utf16_units b + utf16_length rest
  end.

End Js.

(** ** services/booksService.ts: the metadata record *)

Module booksService.

(** [BookMetadata]; [number] is the type of JavaScript numbers, which the
    code below only copies. *)
Record BookMetadata {number : Type} : Type := mkBookMetadata {
  title : string;
  author : string;
  age_group : string;
  book_type : string;
  theme : string;
  educational_focus : Js.OptString;
  trim_size : string;
  page_count : number
}.
Arguments BookMetadata : clear implicits.



End booksService.

(** ** config/api.ts: endpoints

    [API_BASE_URL] is fixed when the bundle is built; the endpoint tables
    take its value as [base]. *)

Module config.

(** [import.meta.env.VITE_API_URL || 'http://localhost:8000/api/v1']. *)
Definition API_BASE_URL (VITE_API_URL : Js.OptString) : string :=
  match VITE_API_URL with
  | Js.Str s => if Js.truthy_string s then s else "http://localhost:8000/api/v1"
  | Js.Undefined | Js.Null => "http://localhost:8000/api/v1"
  end.

Module BATCH_ENDPOINTS.

Definition LIST (base : string) : string := base +:+ "/batch".
Definition DETAIL (base : string) (id : string) : string :=
  base +:+ "/batch/" +:+ id.
Definition CREATE (base : string) : string := base +:+ "/batch".
Definition STATUS (base : string) (id : string) : string :=
  base +:+ "/batch/" +:+ id +:+ "/status".

End BATCH_ENDPOINTS.

Module CANVA_ENDPOINTS.

Definition TEMPLATES (base : string) : string := base +:+ "/canva/templates".
Definition PREVIEW (base : string) (designId : string) : string :=
  base +:+ "/canva/preview/" +:+ designId.
Definition EXPORT (base : string) (designId : string) : string :=
  base +:+ "/canva/export/" +:+ designId.

End CANVA_ENDPOINTS.

End config.

(** ** The browser and the network, as the services see them

    A service call reads [localStorage], may issue HTTP requests through
    axios and either resolves with a value or rejects with a thrown
    value.  The world records every request issued, in order. *)

Module Http.

Inductive Method : Type := GET | POST | PATCH | DELETE.

(** The body of a request: none, the literal [{}], or a payload. *)
Inductive Body (J : Type) : Type :=
| NoBody
| EmptyObject
| Payload (j : J).
Arguments NoBody {J}.
Arguments EmptyObject {J}.
Arguments Payload {J} j.

Record Request (J : Type) : Type := mkRequest {
  method : Method;
  url : string;
  data : Body J;
  headers : gmap string string
}.
Arguments mkRequest {J}.
Arguments method {J}.
Arguments url {J}.
Arguments data {J}.
Arguments headers {J}.

(** What a rejected promise carries: an [Error] built by the code, or
    whatever axios rejected with. *)
Inductive Thrown (E : Type) : Type :=
| Error (message : string)
| AxiosError (e : E).
Arguments Error {E}.
Arguments AxiosError {E}.

Record World (J : Type) : Type := mkWorld {
  localStorage : gmap string string;
  sent : list (Request J)
}.
Arguments mkWorld {J}.
Arguments localStorage {J}.
Arguments sent {J}.

Section Monad.
Context {J R E : Type}.
(** The server: what axios answers to a request. *)
Context (axios : Request J → E + R).

Definition M (A : Type) : Type := World J → (Thrown E + A) * World J.

Definition ret {A} (a : A) : M A := λ w, (inr a, w).

Definition bind {A B} (m : M A) (k : A → M B) : M B :=
  λ w, match m w with
       | (inr a, w') => k a w'
       | (inl e, w') => (inl e, w')
       end.

Definition throw {A} (e : Thrown E) : M A := λ w, (inl e, w).

(** [localStorage.getItem(key)]: the stored string, or [null]. *)
Definition getItem (key : string) : M (option string) :=
  λ w, (inr (localStorage w !! key), w).

(** [(await axios(request)).data]: the request goes out, then the promise
    settles, with the response's data or with what axios rejects with. *)
Definition send (r : Request J) : M R :=
  λ w, (match axios r with
        | inr d => inr d
        | inl e => inl (AxiosError e)
        end,
        {| localStorage := localStorage w; sent := sent w ++ [r] |}).

(** [!token] for [token : string | null]. *)
Definition falsy (token : option string) : bool :=
  match token with
  | None => true
  | Some t => negb (Js.truthy_string t)
  end.

(** A template literal's rendering of [token : string | null]. *)
Definition template (token : option string) : string :=
  match token with
  | None => "null"
  | Some t => t
  end.

End Monad.

Notation "'let*' x ':=' m 'in' k" := (bind m (λ x, k))
  (at level 10, x name, m at level 100, k at level 200, only parsing).

End Http.

(** ** utils/api-helpers.ts *)

Module apiHelpers.
Import Http.

(** [axiosError.response?.data], as far as [formatErrorMessage] reads it:
    a string, or an object with an optional [detail]. *)
Inductive ResponseData : Type :=
| DataString (s : string)
| DataObject (detail : Js.OptString).

(** A value caught by [catch (error)]: an axios error (an [Error] too, with
    the response data when there is one), another [Error], or any other
    thrown value. *)
Inductive Caught : Type :=
| CaughtAxiosError (response_data : option ResponseData) (message : string)
| CaughtError (message : string)
| CaughtOther.

(** The message [formatErrorMessage] takes from the response data. *)
Definition data_message (data : option ResponseData) : option string :=
  match data with
  | Some (DataString s) => if Js.truthy_string s then Some s else None
  | Some (DataObject detail) =>
      if Js.truthy detail then Some (Js.or_empty detail) else None
  | None => None
  end.

Definition formatErrorMessage (error : Caught) : string :=
  match error with
  | CaughtAxiosError data message =>
      match data_message data with
      | Some text => text
      | None =>
          if Js.truthy_string message then message
          else message (* [error instanceof Error]: [error.message] *)
      end
  | CaughtError message => message
  | CaughtOther => "An unknown error occurred"
  end.

(** What [catch (error)] binds when a promise of the world rejected. *)
Definition caught (t : Thrown Caught) : Caught :=
  match t with
  | Error message => CaughtError message
  | AxiosError e => e
  end.

(** [apiRequest(config)]: the response data, or
    [new Error(formatErrorMessage(error))]. *)
Definition apiRequest {J R : Type} (axios : Request J → Caught + R)
    (config : Request J) : M (J:=J) (E:=Caught) R :=
  λ w, match send axios config w with
       | (inr d, w') => (inr d, w')
       | (inl t, w') => (inl (Error (formatErrorMessage (caught t))), w')
       end.

End apiHelpers.

(** ** services/generationService.ts *)

Module generationService.
Import booksService Http.

(** [GenerationStatus]: the five string literals of the union. *)
Inductive GenerationStatus : Type :=
| idle
| preparing
| generating
| completed
| failed.

#[global] Instance GenerationStatus_eq_dec : EqDecision GenerationStatus.
Proof. solve_decision. Defined.


(** [GenerationStatusResponse]; an optional field is [None] when absent.
    Numbers are modelled by integers, except the estimate: a number of
    seconds that need not be whole, held as the fraction that the number
    parsed from the answer is. *)
Record GenerationStatusResponse : Type := mkGenerationStatusResponse {
  status : GenerationStatus;
  currentStep : string;
  progress : Z;
  error : option string;
  estimatedTimeRemaining : option Q;
  bookId : option string
}.

Module GENERATION_ENDPOINTS.

Definition START (base : string) : string := base +:+ "/generation/start".
Definition STATUS (base : string) : string := base +:+ "/generation/status".
Definition CANCEL (base : string) : string := base +:+ "/generation/cancel".

End GENERATION_ENDPOINTS.

Section Operations.
Context {J : Type} (API_BASE_URL : string).

(** Each operation is [try { return await apiRequest(...) } catch (error) {
    console.error(...); throw error }]: a rejection is passed on as it was
    caught (the console is not modelled). *)
Definition startGeneration {R : Type} (axios : Request J → apiHelpers.Caught + R)
    (request : J) : M (J:=J) (E:=apiHelpers.Caught) R :=
  apiHelpers.apiRequest axios
    (mkRequest POST (GENERATION_ENDPOINTS.START API_BASE_URL) (Payload request) ∅).

Definition getGenerationStatus
    (axios : Request J → apiHelpers.Caught + GenerationStatusResponse)
    (bookId : string) : M (J:=J) (E:=apiHelpers.Caught) GenerationStatusResponse :=
  apiHelpers.apiRequest axios
    (mkRequest GET (GENERATION_ENDPOINTS.STATUS API_BASE_URL +:+ "/" +:+ bookId)
       NoBody ∅).

Definition cancelGeneration {R : Type} (axios : Request J → apiHelpers.Caught + R)
    (bookId : string) : M (J:=J) (E:=apiHelpers.Caught) unit :=
  let* _ := apiHelpers.apiRequest axios
              (mkRequest POST
                 (GENERATION_ENDPOINTS.CANCEL API_BASE_URL +:+ "/" +:+ bookId)
                 NoBody ∅) in
  ret ().

End Operations.

Record GenerationSettingsData {number : Type} : Type := mkGenerationSettingsData {
  storyType : string;
  ageRange : string;
  language : string;
  settings_theme : string;
  characters : string;
  illustrationStyle : string;
  additionalNotes : string;
  pagesCount : number
}.
Arguments GenerationSettingsData : clear implicits.

Definition convertToBookMetadata {number : Type}
    (settings : GenerationSettingsData number) : BookMetadata number :=
  {| title := settings_theme settings;
     author := "AI Generated";
     age_group := ageRange settings;
     book_type := if decide (storyType settings = "coloring")
                  then "coloring" else "story";
     theme := settings_theme settings;
     educational_focus := Js.or_undefined (additionalNotes settings);
     trim_size := "8.5x11";
     page_count := pagesCount settings |}.

Definition convertFromBookMetadata {number : Type}
    (metadata : BookMetadata number) : GenerationSettingsData number :=
  {| storyType := book_type metadata;
     ageRange := age_group metadata;
     language := "english";
     settings_theme := theme metadata;
     characters := "";
     illustrationStyle := "cartoon";
     additionalNotes := Js.or_empty (educational_focus metadata);
     pagesCount := page_count metadata |}.

(** What the round trip leaves in [educational_focus]. *)
Definition normalized_focus (v : Js.OptString) : Js.OptString :=
  match v with
  | Js.Str s => if decide (s = "") then Js.Undefined else Js.Str s
  | Js.Undefined | Js.Null => Js.Undefined
  end.

Definition sample_metadata : BookMetadata Z :=
  {| title := "Dragons"; author := "Ann"; age_group := "5-7";
     book_type := "coloring"; theme := "Magic";
     educational_focus := Js.Str "counting";
     trim_size := "8.5x8.5"; page_count := 24%Z |}.

End generationService.

(** ** services/batchService.ts *)

Module batchService.
Import Http.

(** The status union of [BatchJob] and [BatchBookResult]. *)
Inductive BatchStatus : Type :=
| pending
| processing
| completed
| failed.

#[global] Instance BatchStatus_eq_dec : EqDecision BatchStatus.
Proof. solve_decision. Defined.


(** [BatchBookResult]; nullable fields are [None] when [null]. *)
Record BatchBookResult : Type := mkBatchBookResult {
  result_id : option string;
  result_metadata : booksService.BookMetadata Z;
  result_status : BatchStatus;
  result_error : option string;
  result_preview_url : option string;
  result_download_url : option string
}.

(** [BatchJob], as the server sends it. *)
Record BatchJob : Type := mkBatchJob {
  job_id : string;
  job_name : string;
  job_description : string;
  job_status : BatchStatus;
  job_owner : string;
  job_created_at : string;
  job_updated_at : string;
  total_books : Z;
  completed_books : Z;
  failed_books : Z;
  results : list BatchBookResult
}.

Section Service.
Context {J R E : Type}.
Context (API_BASE_URL : string) (axios : Request J → E + R).

Definition getBatchJobs : M R :=
  let* token := getItem "token" in
  if falsy token then throw (Error "No authentication token found")
  else
    let* response :=
      send axios (mkRequest GET (config.BATCH_ENDPOINTS.LIST API_BASE_URL) NoBody
        {[ "Authorization" := "Bearer " +:+ template token ]}) in
    ret response.

Definition getBatchJob (id : string) : M R :=
  let* token := getItem "token" in
  if falsy token then throw (Error "No authentication token found")
  else
    let* response :=
      send axios (mkRequest GET (config.BATCH_ENDPOINTS.DETAIL API_BASE_URL id) NoBody
        {[ "Authorization" := "Bearer " +:+ template token ]}) in
    ret response.

Definition createBatchJob (batchJob : J) : M R :=
  let* token := getItem "token" in
  if falsy token then throw (Error "No authentication token found")
  else
    let* response :=
      send axios (mkRequest POST (config.BATCH_ENDPOINTS.CREATE API_BASE_URL)
        (Payload batchJob)
        (<[ "Content-Type" := "application/json" ]>
           {[ "Authorization" := "Bearer " +:+ template token ]})) in
    ret response.

Definition checkBatchJobStatus (id : string) : M R :=
  let* token := getItem "token" in
  if falsy token then throw (Error "No authentication token found")
  else
    let* response :=
      send axios (mkRequest GET (config.BATCH_ENDPOINTS.STATUS API_BASE_URL id) NoBody
        {[ "Authorization" := "Bearer " +:+ template token ]}) in
    ret response.

Definition cancelBatchJob (id : string) : M unit :=
  let* token := getItem "token" in
  if falsy token then throw (Error "No authentication token found")
  else
    let* _ :=
      send axios (mkRequest DELETE (config.BATCH_ENDPOINTS.DETAIL API_BASE_URL id) NoBody
        {[ "Authorization" := "Bearer " +:+ template token ]}) in
    ret ().

End Service.
End batchService.

(** ** The status of a batch: what the front end is sent, and the
    aggregate of the specification for comparison *)

Module BatchStatusReport.
Import batchService.

(** The names of the aggregate statuses of the specification (§3), in
    lower case. *)
Definition spec_aggregate_names : list string :=
  ["completed"; "partiallyfailed"; "running"].

(** A constituent that has come to its end; the status of a book result
    has no value for a cancelled one. *)
Definition terminal (s : BatchStatus) : bool :=
  match s with
  | completed | failed => true
  | pending | processing => false
  end.

(** The aggregate status in the words of the specification, by name:
    Completed iff all constituents are terminal and all succeeded,
    PartiallyFailed iff all are terminal and at least one failed, Running
    otherwise. *)
Definition spec_aggregateStatus (per : list BatchStatus) : string :=
  if forallb terminal per then
    if forallb (λ s, bool_decide (s = completed)) per then "completed"
    else if existsb (λ s, bool_decide (s = failed)) per then "partiallyfailed"
    else "running"
  else "running".

(** The statuses of the constituents of a batch job. *)
Definition constituents (job : BatchJob) : list BatchStatus :=
  result_status <$> results job.



(** A book result with a given status. *)
Definition book_result (title : string) (st : BatchStatus) (err : option string)
    : BatchBookResult :=
  {| result_id := Some title;
     result_metadata :=
       @booksService.mkBookMetadata Z title "AI Generated" "5-8" "story" title
         Js.Undefined "8.5x11" 10%Z;
     result_status := st; result_error := err;
     result_preview_url := None; result_download_url := None |}.

(** A batch of three books of which the second failed, with the status
    [st] in its record. *)
Definition batch_of_three (st : BatchStatus) : BatchJob :=
  {| job_id := "batch-1"; job_name := "Animal Series"; job_description := "";
     job_status := st; job_owner := "user-1";
     job_created_at := "2024-01-01T00:00:00Z";
     job_updated_at := "2024-01-01T00:10:00Z";
     total_books := 3; completed_books := 2; failed_books := 1;
     results := [book_result "Lion" completed None;
                 book_result "Tiger" failed (Some "content policy rejection");
                 book_result "Bear" completed None] |}.

End BatchStatusReport.

(** ** services/canvaService.ts *)

Module canvaService.
Import Http.

Section Service.
Context {J R E : Type}.
Context (API_BASE_URL : string) (axios : Request J → E + R).

Definition getTemplates : M R :=
  let* token := getItem "token" in
  if falsy token then throw (Error "No authentication token found")
  else
    let* response :=
      send axios (mkRequest GET (config.CANVA_ENDPOINTS.TEMPLATES API_BASE_URL) NoBody
        {[ "Authorization" := "Bearer " +:+ template token ]}) in
    ret response.

Definition getDesignPreview (designId : string) : M R :=
  let* token := getItem "token" in
  if falsy token then throw (Error "No authentication token found")
  else
    let* response :=
      send axios (mkRequest GET (config.CANVA_ENDPOINTS.PREVIEW API_BASE_URL designId)
        NoBody {[ "Authorization" := "Bearer " +:+ template token ]}) in
    ret response.

Definition exportDesign (designId : string) : M R :=
  let* token := getItem "token" in
  if falsy token then throw (Error "No authentication token found")
  else
    let* response :=
      send axios (mkRequest POST (config.CANVA_ENDPOINTS.EXPORT API_BASE_URL designId)
        EmptyObject {[ "Authorization" := "Bearer " +:+ template token ]}) in
    ret response.

End Service.
End canvaService.

(** ** The token guard of the batch and Canva services *)

Module AuthGuard.
Import Http.

Section Guard.
Context {J R E : Type}.

(** The call throws the missing-token error, issues no request and leaves
    [localStorage] alone. *)
Definition rejects_without_request {A} (c : M (J:=J) (E:=E) A) (w : World J) : Prop :=
  (c w).1 = inl (Error "No authentication token found") ∧
  sent (c w).2 = sent w ∧
  localStorage (c w).2 = localStorage w.

(** The call issues exactly one request, whose [Authorization] header is
    ['Bearer '] followed by [t]. *)
Definition sends_with_bearer {A} (c : M (J:=J) (E:=E) A) (w : World J) (t : string) : Prop :=
  ∃ r, sent (c w).2 = sent w ++ [r] ∧
       headers r !! "Authorization" = Some ("Bearer " +:+ t).

(** The guard in the words of the claim: no ['token'] entry, or an entry. *)
Definition token_guard_as_stated (A : Type) (c : M (J:=J) (E:=E) A) : Prop :=
  ∀ w,
    (localStorage w !! "token" = None → rejects_without_request c w) ∧
    (∀ t, localStorage w !! "token" = Some t → sends_with_bearer c w t).

(** The guard as the code has it: [!token] also holds of the empty string. *)
Definition token_guard (A : Type) (c : M (J:=J) (E:=E) A) : Prop :=
  ∀ w,
    (localStorage w !! "token" = None ∨ localStorage w !! "token" = Some "" →
       rejects_without_request c w) ∧
    (∀ t, localStorage w !! "token" = Some t → t ≠ "" →
       sends_with_bearer c w t).

Context (API_BASE_URL : string) (axios : Request J → E + R).

(** A property of all eight operations of the two services. *)
Definition every_operation (P : ∀ A, M (J:=J) (E:=E) A → Prop) : Prop :=
  P _ (batchService.getBatchJobs API_BASE_URL axios) ∧
  (∀ id, P _ (batchService.getBatchJob API_BASE_URL axios id)) ∧
  (∀ batchJob, P _ (batchService.createBatchJob API_BASE_URL axios batchJob)) ∧
  (∀ id, P _ (batchService.checkBatchJobStatus API_BASE_URL axios id)) ∧
  (∀ id, P _ (batchService.cancelBatchJob API_BASE_URL axios id)) ∧
  P _ (canvaService.getTemplates API_BASE_URL axios) ∧
  (∀ designId, P _ (canvaService.getDesignPreview API_BASE_URL axios designId)) ∧
  (∀ designId, P _ (canvaService.exportDesign API_BASE_URL axios designId)).

End Guard.

(** A server that answers every request with [()], for examples. *)
Definition unit_server : Request unit → unit + unit := λ _, inr ().

Definition empty_token_world : World unit :=
  {| localStorage := {[ "token" := "" ]}; sent := [] |}.

Definition signed_in_world : World unit :=
  {| localStorage := {[ "token" := "abc" ]}; sent := [] |}.

End AuthGuard.

(** ** Architecture document, "Error Handling": [generate_with_retry]

    The wrapped provider call is stateful: its n-th invocation (counted
    from 0) has the outcome [func n].  The run records how often [func]
    was invoked, every [asyncio.sleep] it awaited and every line logged. *)

Module Retry.

Open Scope Z_scope.

Section Wrapper.
Context {V Exn : Type}.

(** What a call of [func] can raise, as the [except] clauses tell them
    apart. *)
Inductive Raised : Type :=
| RateLimitError (e : Exn)
| APIError (e : Exn)
| OtherException (e : Exn).

Inductive Outcome : Type :=
| Returns (v : V)
| Raises (r : Raised).

(** How [generate_with_retry] itself ends: it returns the call's value,
    lets an exception escape, or falls off the loop (returning [None]). *)
Inductive Result : Type :=
| Returned (v : V)
| Escaped (r : Raised)
| ReturnedNone.

Record Run : Type := mkRun {
  calls : nat;
  slept : list Z;
  logged : list Exn
}.

Definition start : Run := {| calls := 0; slept := []; logged := [] |}.

Definition called (st : Run) : Run :=
  {| calls := S (calls st); slept := slept st; logged := logged st |}.

Definition asleep (d : Z) (st : Run) : Run :=
  {| calls := calls st; slept := slept st ++ [d]; logged := logged st |}.

Definition logger_error (e : Exn) (st : Run) : Run :=
  {| calls := calls st; slept := slept st; logged := logged st ++ [e] |}.

(** The body of [for attempt in range(max_retries)], over the attempts
    still to run. *)
Fixpoint retry_loop (max_retries : nat) (retry_delay : Z)
    (func : nat → Outcome) (attempts : list nat) (st : Run) : Result * Run :=
  match attempts with
  | [] => (ReturnedNone, st)
  | attempt :: rest =>
      match func (calls st) with
      | Returns v => (Returned v, called st)
      | Raises (RateLimitError e) =>
          if (attempt <? max_retries - 1)%nat
          then retry_loop max_retries retry_delay func rest
                 (asleep (retry_delay * 2 ^ Z.of_nat attempt) (called st))
          else (Escaped (RateLimitError e), called st)
      | Raises (APIError e) =>
          (Escaped (APIError e), logger_error e (called st))
      | Raises (OtherException e) =>
          (Escaped (OtherException e), called st)
      end
  end.

Definition max_retries : nat := 3.
Definition retry_delay : Z := 1.

Definition generate_with_retry (func : nat → Outcome) : Result * Run :=
  retry_loop max_retries retry_delay func (seq 0 max_retries) start.

(** The first [k] invocations of [func] fail with a rate-limit error, the
    one failure [generate_with_retry] retries.  The retryable class of the
    specification is wider: see [fails_retryably] below. *)
Definition fails_transiently (func : nat → Outcome) (k : nat) : Prop :=
  ∀ i, (i < k)%nat → ∃ e, func i = Raises (RateLimitError e).

(** The delays awaited after the failed attempts [a], [a+1], ... *)
Definition delays (retry_delay : Z) (a n : nat) : list Z :=
  (λ attempt, retry_delay * 2 ^ Z.of_nat attempt) <$> seq a n.

(** How many of the invocations [a], [a+1], ..., at most [n] of them, fail
    with a rate-limit error before one does not. *)
Fixpoint leading_failures (func : nat → Outcome) (a n : nat) : nat :=
  match n with
  | O => O
  | S n' =>
      match func a with
      | Raises (RateLimitError _) => S (leading_failures func (S a) n')
      | _ => O
      end
  end.

(** *** The retry policy of the specification, for comparison *)

(** The error classes of the specification (§4.3). *)
Inductive ErrorClass : Type :=
| Retryable
| Terminal.

(** The class of an exception of the wrapped call.  §4.3 and §7 count
    rate limiting, provider 5xx answers and transient network failures as
    retryable.  A rate-limit answer is raised as [RateLimitError]; a 5xx
    answer is raised as the provider's [APIError] and a network failure as
    some other exception, and [transient] says which of those are the
    transient ones. *)
Definition classify (transient : Exn → bool) (r : Raised) : ErrorClass :=
  match r with
  | RateLimitError _ => Retryable
  | APIError e | OtherException e => if transient e then Retryable else Terminal
  end.

(** The first [k] invocations of [func] fail with a retryable error. *)
Definition fails_retryably (transient : Exn → bool) (func : nat → Outcome)
    (k : nat) : Prop :=
  ∀ i, (i < k)%nat → ∃ r, func i = Raises r ∧ classify transient r = Retryable.

(** The claim about attempts in its own words: [k < max_retries] retryable
    failures and then a success give the success after [k + 1] attempts;
    [max_retries] retryable failures give an error after exactly
    [max_retries] attempts. *)
Definition attempts_as_stated : Prop :=
  ∀ (transient : Exn → bool) (func : nat → Outcome),
    (∀ k v, (k < max_retries)%nat → fails_retryably transient func k →
            func k = Returns v →
            (generate_with_retry func).1 = Returned v ∧
            calls (generate_with_retry func).2 = (k + 1)%nat) ∧
    (fails_retryably transient func max_retries →
     ∃ r, (generate_with_retry func).1 = Escaped r ∧
          calls (generate_with_retry func).2 = max_retries).

(** [min(maxBackoff, base * 2^attempt)], in seconds. *)
Definition spec_backoff (maxBackoff base : Z) (attempt : nat) : Z :=
  Z.min maxBackoff (base * 2 ^ Z.of_nat attempt).

(** [wait = backoff + jitter] for some jitter in [[0, backoff/2]]. *)
Definition spec_wait (maxBackoff base : Z) (attempt : nat) (wait : Z) : Prop :=
  ∃ jitter : Z,
    0 ≤ 2 * jitter ≤ spec_backoff maxBackoff base attempt ∧
    wait = spec_backoff maxBackoff base attempt + jitter.

(** "The jitter term is always present": some run has a wait that is not
    the bare exponential [base * 2^attempt]. *)
Definition jitter_as_stated : Prop :=
  ∃ (func : nat → Outcome) (attempt : nat) (wait : Z),
    slept (generate_with_retry func).2 !! attempt = Some wait ∧
    wait ≠ retry_delay * 2 ^ Z.of_nat attempt.

(** The claim in its own words: whatever cap the policy is configured
    with, every wait of [generate_with_retry] is the capped backoff plus a
    jitter term. *)
Definition waits_as_stated : Prop :=
  ∀ (maxBackoff : Z) (func : nat → Outcome) (attempt : nat) (wait : Z),
    0 < maxBackoff →
    slept (generate_with_retry func).2 !! attempt = Some wait →
    spec_wait maxBackoff retry_delay attempt wait.

End Wrapper.

Arguments Raised : clear implicits.
Arguments Outcome : clear implicits.
Arguments Result : clear implicits.
Arguments Run : clear implicits.

(** A call that is rate limited twice and then answers 7. *)
Definition twice_limited : nat → Outcome Z string :=
  λ i, if (i <? 2)%nat then Raises (RateLimitError "429") else Returns 7.

(** A call that is always rate limited. *)
Definition always_limited : nat → Outcome Z string :=
  λ _, Raises (RateLimitError "429").

(** A call that the provider answers with a 500 once, and then answers 7. *)
Definition once_unavailable : nat → Outcome Z string :=
  λ i, if (i <? 1)%nat then Raises (APIError "500 Internal Server Error")
       else Returns 7.

(** The 5xx answers among the errors, told by the status code their
    message starts with. *)
Definition answered_5xx (e : string) : bool := String.prefix "5" e.

(** A call whose connection drops every time. *)
Definition always_disconnected : nat → Outcome Z string :=
  λ _, Raises (OtherException "Connection reset by peer").

End Retry.

(** ** Architecture document, "Async Queue Pattern": [APIQueue]

    An asyncio program runs one task at a time and changes task only where
    a task suspends.  The queue's code suspends at [await func(...)] and at
    [await asyncio.sleep(...)]; putting into and getting from the
    unbounded, non-empty [asyncio.Queue] does not suspend.  The steps below
    are the stretches of code between those points. *)

Module APIQueue.

Section Queue.
Context {Req : Type}.

(** Where a [_process_queue] task stands. *)
Inductive TaskPhase : Type :=
| Created                (* made by [create_task], not yet run *)
| Calling (r : Req)      (* suspended in [await func(...)] *)
| Sleeping               (* suspended in [await asyncio.sleep(60 / rate_limit)] *)
| Finished               (* left the loop, [processing] reset *)
| Crashed.               (* ended by an exception of its own *)

Record State : Type := mkState {
  queue : list Req;
  rate_limit : Z;
  processing : bool;
  tasks : list TaskPhase;
  logged : list string
}.

(** [APIQueue(rate_limit)]. *)
Definition init (rate_limit : Z) : State :=
  {| queue := []; rate_limit := rate_limit; processing := false;
     tasks := []; logged := [] |}.

(** What can happen to the queue.  [call_returns i raised]: the call task
    [i] awaits returns ([None]) or raises an [Exception] with message [e]
    ([Some e]).  [task_cancelled i]: an exception that is no [Exception]
    reaches task [i] where it is suspended: [asyncio.CancelledError] when
    the task or the call it awaits is cancelled, or another
    [BaseException] raised by the call. *)
Inductive Event : Type :=
| add_request (r : Req)
| task_runs (i : nat)
| call_returns (i : nat) (raised : option string)
| sleep_ends (i : nat)
| task_cancelled (i : nat).

(** The loop test [while not self.queue.empty()] of task [i] and what
    follows it without suspending: the next request is taken and called, or
    the loop is left and [processing] reset. *)
Definition loop_head (i : nat) (q : State) : State :=
  match queue q with
  | [] =>
      {| queue := []; rate_limit := rate_limit q; processing := false;
         tasks := <[i := Finished]> (tasks q); logged := logged q |}
  | r :: rest =>
      {| queue := rest; rate_limit := rate_limit q; processing := processing q;
         tasks := <[i := Calling r]> (tasks q); logged := logged q |}
  end.

Definition step (e : Event) (q : State) : option State :=
  match e with
  | add_request r =>
      Some {| queue := queue q ++ [r]; rate_limit := rate_limit q;
              processing := processing q;
              tasks := if processing q then tasks q else tasks q ++ [Created];
              logged := logged q |}
  | task_runs i =>
      match tasks q !! i with
      | Some Created =>
          Some (loop_head i
                  {| queue := queue q; rate_limit := rate_limit q;
                     processing := true; tasks := tasks q;
                     logged := logged q |})
      | _ => None
      end
  | call_returns i raised =>
      match tasks q !! i with
      | Some (Calling _) =>
          let log := match raised with
                     | Some e => logged q ++ [e]
                     | None => logged q
                     end in
          (* [60 / self.rate_limit] raises ZeroDivisionError for 0 *)
          Some {| queue := queue q; rate_limit := rate_limit q;
                  processing := processing q;
                  tasks := <[i := if decide (rate_limit q = 0%Z)
                                  then Crashed else Sleeping]> (tasks q);
                  logged := log |}
      | _ => None
      end
  | sleep_ends i =>
      match tasks q !! i with
      | Some Sleeping => Some (loop_head i q)
      | _ => None
      end
  | task_cancelled i =>
      (* [except Exception] does not catch it and nothing else does: the
         task ends where it stands; a task cancelled before its first run
         never runs *)
      match tasks q !! i with
      | Some Created | Some (Calling _) | Some Sleeping =>
          Some {| queue := queue q; rate_limit := rate_limit q;
                  processing := processing q;
                  tasks := <[i := Crashed]> (tasks q);
                  logged := logged q |}
      | _ => None
      end
  end.

Fixpoint run (evs : list Event) (q : State) : option State :=
  match evs with
  | [] => Some q
  | e :: rest =>
      match step e q with
      | Some q' => run rest q'
      | None => None
      end
  end.

Definition is_calling (t : TaskPhase) : bool :=
  match t with Calling _ => true | _ => false end.

Definition is_created (t : TaskPhase) : bool :=
  match t with Created => true | _ => false end.

(** How many of the tasks are suspended in a provider call. *)
Fixpoint calling (l : list TaskPhase) : nat :=
  match l with
  | [] => 0
  | t :: l' => (if is_calling t then 1 else 0) + calling l'
  end.

(** The provider calls in flight. *)
Definition in_flight (q : State) : nat := calling (tasks q).

(** The request a task is calling. *)
Definition call_of (t : TaskPhase) : option Req :=
  match t with Calling r => Some r | _ => None end.

(** The requests whose calls are in flight, by task. *)
Definition calls_in_flight (q : State) : list Req := omap call_of (tasks q).

(** No task is waiting for its first run. *)
Definition settled (q : State) : Prop :=
  Forall (λ t, is_created t = false) (tasks q).






(** The requests a schedule adds, in order. *)
Fixpoint added (evs : list Event) : list Req :=
  match evs with
  | [] => []
  | add_request r :: rest => r :: added rest
  | _ :: rest => added rest
  end.



End Queue.

Arguments TaskPhase : clear implicits.
Arguments State : clear implicits.
Arguments Event : clear implicits.



End APIQueue.

(** ** Schedules of [APIQueue] beyond admission *)

Module APIQueueSchedules.
Import APIQueue.

Section Schedules.
Context {Req : Type}.

(** The request whose call a step starts: the one the task that ran is
    calling afterwards. *)
Definition starts (e : Event Req) (q : State Req) : list Req :=
  match e with
  | task_runs i | sleep_ends i =>
      match step e q with
      | Some q' =>
          match tasks q' !! i with
          | Some (Calling r) => [r]
          | _ => []
          end
      | None => []
      end
  | _ => []
  end.

(** The request whose call a step ends: the call returns or raises, or the
    task is cancelled while it awaits the call. *)
Definition finishes (e : Event Req) (q : State Req) : list Req :=
  match e with
  | call_returns i _ | task_cancelled i =>
      match tasks q !! i with
      | Some (Calling r) => [r]
      | _ => []
      end
  | _ => []
  end.

(** The requests whose calls a schedule starts, in the order the calls
    start. *)
Fixpoint started (evs : list (Event Req)) (q : State Req) : list Req :=
  match evs with
  | [] => []
  | e :: rest =>
      match step e q with
      | Some q' => starts e q ++ started rest q'
      | None => []
      end
  end.

(** The requests whose calls a schedule ends, in the order the calls
    end. *)
Fixpoint ended (evs : list (Event Req)) (q : State Req) : list Req :=
  match evs with
  | [] => []
  | e :: rest =>
      match step e q with
      | Some q' => finishes e q ++ ended rest q'
      | None => []
      end
  end.

(** The messages of the [Exception]s the calls of a schedule raise. *)
Fixpoint raised_by (evs : list (Event Req)) : list string :=
  match evs with
  | [] => []
  | call_returns _ (Some e) :: rest => e :: raised_by rest
  | _ :: rest => raised_by rest
  end.

(** A task that will never run again. *)
Definition is_over (t : TaskPhase Req) : bool :=
  match t with Finished | Crashed => true | _ => false end.

(** [processing] is set although no task is left to reset it. *)
Definition stalled (q : State Req) : Prop :=
  processing q = true ∧ Forall (λ t, is_over t = true) (tasks q).

End Schedules.
End APIQueueSchedules.

(** ** Architecture document, "Fallback Pattern": [APIFallbackHandler] *)

Module APIFallbackHandler.

Section Handler.
Context {V Exn : Type}.

(** What awaiting a provider's call gives: a value, an [Exception], or an
    exception that is no [Exception] ([asyncio.CancelledError] and the
    other [BaseException]s), which [except Exception] does not catch. *)
Inductive Outcome : Type :=
| Returns (v : V)
| Raises (e : Exn)
| Escapes (e : Exn).

(** How [make_request] ends: with a provider's value, with a provider's
    exception, or with [Exception("All API providers failed")]. *)
Inductive Result : Type :=
| Returned (v : V)
| Escaped (e : Exn)
| AllFailed.

Record Run : Type := mkRun {
  called : list string;
  warned : list (string * Exn)
}.

Definition start : Run := {| called := []; warned := [] |}.

(** The loop over [self.providers.items()]. *)
Fixpoint request_loop (providers : list (string * Outcome)) (st : Run) : Result * Run :=
  match providers with
  | [] => (AllFailed, st)
  | (provider_name, provider_func) :: rest =>
      let st1 := {| called := called st ++ [provider_name]; warned := warned st |} in
      match provider_func with
      | Returns v => (Returned v, st1)
      | Raises e =>
          let st2 := {| called := called st1;
                        warned := warned st1 ++ [(provider_name, e)] |} in
          if decide (provider_name = "fallback") then (Escaped e, st2)
          else request_loop rest st2
      | Escapes e => (Escaped e, st1)
      end
  end.

(** [self.providers], in the order of the dictionary. *)
Definition providers (primary_api_call secondary_api_call fallback_api_call : Outcome)
    : list (string * Outcome) :=
  [("primary", primary_api_call);
   ("secondary", secondary_api_call);
   ("fallback", fallback_api_call)].

Definition make_request (primary_api_call secondary_api_call fallback_api_call : Outcome)
    : Result * Run :=
  request_loop (providers primary_api_call secondary_api_call fallback_api_call) start.

(** The warnings for providers that all fail with an [Exception]. *)
Definition failures (l : list (string * Outcome)) : list (string * Exn) :=
  omap (λ p, match p.2 with Raises e => Some (p.1, e) | _ => None end) l.

(** How [make_request] ends when a provider's call does not raise an
    [Exception]. *)
Definition ends_with (o : Outcome) : Result :=
  match o with
  | Returns v => Returned v
  | Raises e | Escapes e => Escaped e
  end.

End Handler.

Arguments Outcome : clear implicits.
Arguments Result : clear implicits.
Arguments Run : clear implicits.

End APIFallbackHandler.

(** ** Architecture document, "Autofill Design" and "Export Design":
    polling a Canva job *)

Module CanvaPolling.

(** A job as the client returns it; [Res] is the type of [job.result]
    (of [export_job.urls]). *)
Record Job {Res : Type} : Type := mkJob {
  job_id : string;
  job_status : string;
  job_result : Res
}.
Arguments Job : clear implicits.
Arguments mkJob {Res}.

Record Polled {Res : Type} : Type := mkPolled {
  returned : Res;
  polls : nat;
  slept : list Z
}.
Arguments Polled : clear implicits.
Arguments mkPolled {Res}.

Section Polling.
Context {Res : Type}.
(** [client.get_design_autofill_job(id)]: the answer to the n-th poll. *)
Context (get_job : nat → string → Job Res).

(** [while job.status == "in_progress": ...; return job.result], run for
    at most [fuel] tests of the loop condition. *)
Fixpoint poll (fuel : nat) (job : Job Res) (n : nat) (zs : list Z)
    : option (Polled Res) :=
  match fuel with
  | O => None
  | S fuel' =>
      if decide (job_status job = "in_progress")
      then poll fuel' (get_job n (job_id job)) (S n) (zs ++ [2%Z])
      else Some {| returned := job_result job; polls := n; slept := zs |}
  end.

(** [autofill_design], from the job that
    [create_design_autofill_job] returned. *)
Definition autofill_design (fuel : nat) (job : Job Res) : option (Polled Res) :=
  poll fuel job 0 [].

(** [export_design], from the job that [create_design_export_job]
    returned; [job_result] stands for [export_job.urls]. *)
Definition export_design (fuel : nat) (export_job : Job Res) : option (Polled Res) :=
  poll fuel export_job 0 [].

(** The job the loop looks at after [n] polls. *)
Fixpoint job_after (job : Job Res) (n : nat) : Job Res :=
  match n with
  | O => job
  | S n' => get_job n' (job_id (job_after job n'))
  end.

End Polling.
End CanvaPolling.

(** ** components/generation/GenerationProgressTracker.tsx *)

Module GenerationProgressTracker.
Import generationService.

Record Props : Type := mkProps {
  props_status : GenerationStatus;
  props_currentStep : string;
  props_progress : Z;
  props_error : option string;
  props_estimatedTimeRemaining : option Q
}.

Definition getStatusText (status : GenerationStatus) : string :=
  match status with
  | idle => "Ready"
  | preparing => "Preparing"
  | generating => "Generating"
  | completed => "Completed"
  | failed => "Failed"
  end.

(** What stands below the progress bar. *)
Inductive Footer : Type :=
| WaitingMessage
| TimeEstimate (minutes : option Z) (seconds : Z)
| NoFooter.

(** [Math.floor]. *)
Definition Math_floor (x : Q) : Z := Qfloor x.

(** [x % y] on numbers: what is left of [x] when [y] has been taken away
    as many whole times as it goes, counted towards zero; it has the sign
    of [x]. *)
Definition remainder (x y : Q) : Q :=
  let times := (x / y)%Q in
  (x - y * inject_Z (if Qle_bool 0 times then Qfloor times else Qceiling times))%Q.

(** [formatTimeRemaining]: nothing when the estimate is absent or 0;
    otherwise the minutes (shown only when positive) and the seconds.
    (Where JavaScript rounds the quotient to the nearest double, the
    quotient is taken as it is: for an estimate below 2^53 seconds the
    rounding of the quotient does not reach the next whole number.) *)
Definition formatTimeRemaining (estimatedTimeRemaining : option Q) : Footer :=
  match estimatedTimeRemaining with
  | None => NoFooter
  | Some t =>
      if Qeq_bool t 0 then NoFooter
      else
        let minutes := Math_floor (t / 60) in
        let seconds := Math_floor (remainder t 60) in
        TimeEstimate (if decide (0 < minutes)%Z then Some minutes else None)
                     seconds
  end.

(** What [renderContent] returns. *)
Inductive Content : Type :=
| ErrorMessage (text : string)
| SuccessMessage (text : string)
| ProgressView (progress : Z) (stepInfo : option string) (footer : Footer).

(** [if (error)] for the optional prop. *)
Definition truthy_error (error : option string) : bool :=
  match error with
  | Some e => Js.truthy_string e
  | None => false
  end.

Definition renderContent (p : Props) : Content :=
  if bool_decide (props_status p = failed) && truthy_error (props_error p)
  then ErrorMessage (default "" (props_error p))
  else if decide (props_status p = completed)
  then SuccessMessage "Book generation completed successfully!"
  else
    ProgressView (props_progress p)
      (if decide (props_status p = idle) then None
       else Some (props_currentStep p))
      (if decide (props_status p = idle) then WaitingMessage
       else if decide (props_status p = generating ∨ props_status p = preparing)
       then formatTimeRemaining (props_estimatedTimeRemaining p)
       else NoFooter).

End GenerationProgressTracker.

(** ** pages/BookCreatePage.tsx *)

Module BookCreatePage.
Import generationService.

Inductive ActiveStep : Type :=
| step_settings
| step_generating
| step_preview.

(** The component's state; [Book] is the type of generated books. *)
Record PageState {Book : Type} : Type := mkPageState {
  activeStep : ActiveStep;
  generationProgress : GenerationStatusResponse;
  generatedBook : option Book
}.
Arguments PageState : clear implicits.
Arguments mkPageState {Book}.

Section Page.
Context {Book : Type}.

(** A progress value written as an object literal: the optional fields
    that the literal leaves out are absent. *)
Definition progress_literal (status : GenerationStatus) (currentStep : string)
    (progress : Z) (error : option string) : GenerationStatusResponse :=
  {| status := status; currentStep := currentStep; progress := progress;
     error := error; estimatedTimeRemaining := None; bookId := None |}.

(** The state the component starts in ([useState] initial values). *)
Definition initial_state : PageState Book :=
  {| activeStep := step_settings;
     generationProgress := progress_literal idle "" 0 None;
     generatedBook := None |}.

Definition setActiveStep (a : ActiveStep) (s : PageState Book) : PageState Book :=
  {| activeStep := a; generationProgress := generationProgress s;
     generatedBook := generatedBook s |}.

Definition setGenerationProgress (g : GenerationStatusResponse)
    (s : PageState Book) : PageState Book :=
  {| activeStep := activeStep s; generationProgress := g;
     generatedBook := generatedBook s |}.

Definition setGeneratedBook (b : Book) (s : PageState Book) : PageState Book :=
  {| activeStep := activeStep s; generationProgress := generationProgress s;
     generatedBook := Some b |}.

(** [error instanceof Error ? error.message : 'Unknown error occurred']. *)
Definition error_text (error : apiHelpers.Caught) : string :=
  match error with
  | apiHelpers.CaughtAxiosError _ message => message
  | apiHelpers.CaughtError message => message
  | apiHelpers.CaughtOther => "Unknown error occurred"
  end.

(** [handleStartGeneration], given how the awaited generation call settles:
    the states the component goes through, one per state update. *)
Definition handleStartGeneration (settled : apiHelpers.Caught + Book)
    (s : PageState Book) : list (PageState Book) :=
  let s1 := setActiveStep step_generating s in
  let s2 := setGenerationProgress
              (progress_literal preparing "Preparing generation parameters" 5 None)
              s1 in
  match settled with
  | inr book =>
      let s3 := setGeneratedBook book s2 in
      let s4 := setGenerationProgress
                  (progress_literal completed "Book generation completed" 100 None)
                  s3 in
      let s5 := setActiveStep step_preview s4 in
      [s1; s2; s3; s4; s5]
  | inl error =>
      let s3 := setGenerationProgress
                  (progress_literal failed "Generation failed" 0
                     (Some (error_text error)))
                  s2 in
      [s1; s2; s3]
  end.

(** [handleCancel]: navigate to the book list; the state is not touched. *)
Definition handleCancel (s : PageState Book) : PageState Book * string :=
  (s, "/books").

(** The props the page passes to the tracker. *)
Definition tracker_props (s : PageState Book) : GenerationProgressTracker.Props :=
  let g := generationProgress s in
  GenerationProgressTracker.mkProps (status g) (currentStep g) (progress g)
    (error g) None.

(** The statuses a list of states goes through. *)
Definition statuses (trace : list (PageState Book)) : list GenerationStatus :=
  (λ s, status (generationProgress s)) <$> trace.

End Page.
End BookCreatePage.

(** ** pages/BookCreatePage.tsx: what the page shows *)

Module BookCreatePageView.
Import generationService GenerationProgressTracker BookCreatePage.

(** The section the page renders below its title. *)
Inductive View (Book : Type) : Type :=
| SettingsView
| GeneratingView (content : Content) (cancelDisabled : bool)
| PreviewView (book : Book)
| NoView.
Arguments SettingsView {Book}.
Arguments GeneratingView {Book}.
Arguments PreviewView {Book}.
Arguments NoView {Book}.

Section Page.
Context {Book : Type}.

Definition render (s : PageState Book) : View Book :=
  match activeStep s with
  | step_settings => SettingsView
  | step_generating =>
      GeneratingView (renderContent (tracker_props s))
        (bool_decide (status (generationProgress s) = generating))
  | step_preview =>
      match generatedBook s with
      | Some book => PreviewView book
      | None => NoView
      end
  end.

(** What the user can do on the page. *)
Inductive PageEvent : Type :=
| GenerateBook (settled : apiHelpers.Caught + Book)
| BackToSettings.

(** The states the page goes through on an event. *)
Definition on_event (e : PageEvent) (s : PageState Book) : list (PageState Book) :=
  match e with
  | GenerateBook settled => handleStartGeneration settled s
  | BackToSettings => [setActiveStep step_settings s]
  end.

(** The states the page can be in. *)
Inductive visited : PageState Book → Prop :=
| visited_initial : visited initial_state
| visited_event e s s' : visited s → s' ∈ on_event e s → visited s'.

(** Whether the page renders the button of an event: 'Generate Book' on
    the settings step, 'Back to Settings' in the preview. *)
Definition enabled (e : PageEvent) (s : PageState Book) : bool :=
  match e, activeStep s, generatedBook s with
  | GenerateBook _, step_settings, _ => true
  | BackToSettings, step_preview, Some _ => true
  | _, _, _ => false
  end.

(** The states the page goes through on a sequence of events, each of
    which the page offers when it happens. *)
Fixpoint page_run (evs : list PageEvent) (s : PageState Book)
    : option (list (PageState Book)) :=
  match evs with
  | [] => Some []
  | e :: rest =>
      if enabled e s
      then (λ later, on_event e s ++ later)
             <$> page_run rest (default s (last (on_event e s)))
      else None
  end.

End Page.
End BookCreatePageView.

(** ** pages/BookGenerationPage.tsx

    The page keeps the book, the generation progress and whether the
    preview is shown; the generation settings, which no status depends on,
    are left out.  Its generation run is a chain of four timers. *)

Module BookGenerationPage.
Import generationService.

(** What a callback given to [setTimeout] does when its timer fires: it
    sets the progress and, the last one of a run, shows the preview. *)
Record Timer : Type := mkTimer {
  timer_progress : GenerationStatusResponse;
  timer_showPreview : bool
}.

(** The component's state, with the route's [id] and the timers that are
    set and have not fired, in the order they are due. *)
Record PageState {Book : Type} : Type := mkPageState {
  route_id : option string;
  book : option Book;
  generationProgress : GenerationStatusResponse;
  showPreview : bool;
  timers : list Timer
}.
Arguments PageState : clear implicits.
Arguments mkPageState {Book}.

Section Page.
Context {Book : Type}.

(** The state the component starts in. *)
Definition initial_state (id : option string) : PageState Book :=
  {| route_id := id; book := None;
     generationProgress := BookCreatePage.progress_literal idle "" 0 None;
     showPreview := false; timers := [] |}.

Definition setBook (b : Book) (s : PageState Book) : PageState Book :=
  {| route_id := route_id s; book := Some b;
     generationProgress := generationProgress s;
     showPreview := showPreview s; timers := timers s |}.

Definition setGenerationProgress (g : GenerationStatusResponse)
    (s : PageState Book) : PageState Book :=
  {| route_id := route_id s; book := book s; generationProgress := g;
     showPreview := showPreview s; timers := timers s |}.

Definition setShowPreview (b : bool) (s : PageState Book) : PageState Book :=
  {| route_id := route_id s; book := book s;
     generationProgress := generationProgress s;
     showPreview := b; timers := timers s |}.

(** The four timers of a run, due after 2, 4, 6 and 8 seconds. *)
Definition generation_timers : list Timer :=
  [mkTimer (BookCreatePage.progress_literal generating "Creating story outline" 20 None)
     false;
   mkTimer (BookCreatePage.progress_literal generating "Generating story content" 50 None)
     false;
   mkTimer (BookCreatePage.progress_literal generating "Creating illustrations" 75 None)
     false;
   mkTimer (BookCreatePage.progress_literal completed "Book generation completed" 100 None)
     true].

(** [handleStartGeneration]: nothing when the status is 'completed' or
    'generating'; otherwise the status is set and the timers are.  (The
    calls in its [try] block do not throw, so its [catch] clause does not
    run.) *)
Definition handleStartGeneration (s : PageState Book) : PageState Book :=
  if bool_decide (status (generationProgress s) = completed)
     || bool_decide (status (generationProgress s) = generating)
  then s
  else
    {| route_id := route_id s; book := book s;
       generationProgress :=
         BookCreatePage.progress_literal generating
           "Initializing generation process" 0 None;
       showPreview := showPreview s;
       timers := timers s ++ generation_timers |}.

(** A timer's callback. *)
Definition fire (t : Timer) (s : PageState Book) : PageState Book :=
  let s' := setGenerationProgress (timer_progress t) s in
  if timer_showPreview t then setShowPreview true s' else s'.

(** [createNewBook], given how [booksService.createBook] settles. *)
Definition createNewBook (created : apiHelpers.Caught + Book)
    (s : PageState Book) : PageState Book :=
  match created with
  | inr createdBook => setBook createdBook s
  | inl _ =>
      setGenerationProgress
        (BookCreatePage.progress_literal failed "Failed to create book" 0
           (Some "Could not create book. Please try again."))
        s
  end.

(** [if (id)] for the route's [id]. *)
Definition has_id (s : PageState Book) : bool :=
  match route_id s with
  | Some id => Js.truthy_string id
  | None => false
  end.

(** [handleSaveBook], given how the call it makes settles: with an [id]
    the book is updated, which touches no state whether it succeeds or
    not; without, the book is created. *)
Definition handleSaveBook (settled : apiHelpers.Caught + Book)
    (s : PageState Book) : PageState Book :=
  if has_id s then s else createNewBook settled s.

(** [handleCancel]: navigate to the book list; the state is not touched. *)
Definition handleCancel (s : PageState Book) : PageState Book * string :=
  (s, "/books").

(** What can happen on the page. *)
Inductive PageEvent : Type :=
| RouteChanged (id : option string)
| BookFetched (fetched : Book)
| GenerateClicked
| TimerFired
| ViewPreviewClicked
| ClosePreviewClicked
| SaveClicked (settled : apiHelpers.Caught + Book)
| CancelClicked.

(** The state after an event; [None] when the event cannot happen: a
    button can be clicked only where the page renders it, and a timer
    fires only when one is set.  The buttons: 'Generate Book' without the
    preview and with status 'idle' or 'failed'; 'View Book Preview' without
    the preview, with a book and status 'completed'; 'Cancel' without the
    preview; 'Save Book' and 'Close Preview' in the preview with a book.
    A route change keeps the component and its state when the new route
    renders the same page; the book fetched for an [id] arrives at any
    later time. *)
Definition on_event (e : PageEvent) (s : PageState Book) : option (PageState Book) :=
  let st := status (generationProgress s) in
  match e with
  | RouteChanged id =>
      Some {| route_id := id; book := book s;
              generationProgress := generationProgress s;
              showPreview := showPreview s; timers := timers s |}
  | BookFetched fetched => Some (setBook fetched s)
  | GenerateClicked =>
      if negb (showPreview s)
         && (bool_decide (st = idle) || bool_decide (st = failed))
      then Some (handleStartGeneration s) else None
  | TimerFired =>
      match timers s with
      | t :: rest =>
          Some (fire t {| route_id := route_id s; book := book s;
                          generationProgress := generationProgress s;
                          showPreview := showPreview s; timers := rest |})
      | [] => None
      end
  | ViewPreviewClicked =>
      if negb (showPreview s) && bool_decide (is_Some (book s))
         && bool_decide (st = completed)
      then Some (setShowPreview true s) else None
  | ClosePreviewClicked =>
      if showPreview s && bool_decide (is_Some (book s))
      then Some (setShowPreview false s) else None
  | SaveClicked settled =>
      if showPreview s && bool_decide (is_Some (book s))
      then Some (handleSaveBook settled s) else None
  | CancelClicked =>
      if negb (showPreview s) then Some (handleCancel s).1 else None
  end.

(** The states the page goes through on a sequence of events. *)
Fixpoint page_run (evs : list PageEvent) (s : PageState Book)
    : option (list (PageState Book)) :=
  match evs with
  | [] => Some []
  | e :: rest =>
      match on_event e s with
      | Some s' => (λ later, s' :: later) <$> page_run rest s'
      | None => None
      end
  end.

(** The statuses a list of states goes through. *)
Definition statuses (trace : list (PageState Book)) : list GenerationStatus :=
  (λ s, status (generationProgress s)) <$> trace.

End Page.
End BookGenerationPage.

(** ** generationService.ts: [mockGeneration] *)

Module mockGeneration.
Import booksService generationService.

(** An element of [pages]. *)
Record BookPage : Type := mkBookPage {
  page_id : string;
  page_number : Z;
  content : string;
  image_url : string
}.

(** The object [mockGeneration] returns: a [Book] with [pages]. *)
Record Book : Type := mkBook {
  id : string;
  metadata : BookMetadata Z;
  template_id : string;
  canva_design_id : option string;
  created_at : string;
  updated_at : string;
  owner : string;
  book_status : string;
  preview_url : option string;
  download_url : option string;
  pages : list BookPage
}.

Section Mock.
(** [Date.now()], the two [new Date().toISOString()], and the message of
    the [RangeError] that [Array(n)] throws. *)
Context (now : Z) (created updated : string) (RangeError_message : string).

(** The element that [map] builds at index [i]. *)
Definition page (settings : GenerationSettingsData Z) (i : nat) : BookPage :=
  {| page_id := "page-" +:+ pretty i;
     page_number := (Z.of_nat i + 1)%Z;
     content := if decide (i = 0) then settings_theme settings
                else "Page content for page " +:+ pretty (Z.of_nat i + 1)%Z;
     image_url := "https://placekitten.com/800/600?image=" +:+ pretty i |}.

(** [mockGeneration(settings)], once its timer of 5000 ms has fired: the
    book, or the [RangeError] of [Array(settings.pagesCount)] for a count
    that is negative or not below 2^32. *)
Definition mockGeneration (settings : GenerationSettingsData Z)
    : apiHelpers.Caught + Book :=
  let bookId := "mock-" +:+ pretty now in
  let metadata := convertToBookMetadata settings in
  if bool_decide (0 ≤ pagesCount settings < 2 ^ 32)%Z
  then inr {| id := bookId;
              metadata := metadata;
              template_id := "template-123";
              canva_design_id := None;
              created_at := created;
              updated_at := updated;
              owner := "current-user";
              book_status := "completed";
              preview_url := Some "https://placekitten.com/800/1000";
              download_url := None;
              pages := page settings <$> seq 0 (Z.to_nat (pagesCount settings)) |}
  else inl (apiHelpers.CaughtError RangeError_message).

End Mock.
End mockGeneration.

(** ** Writing to [localStorage], and [try ... catch] *)

Module Effects.
Import Http.

Section Storage.
Context {J E : Type}.

(** [localStorage.setItem(key, value)]. *)
Definition setItem (key value : string) : M (J:=J) (E:=E) unit :=
  λ w, (inr (), {| localStorage := <[key := value]> (localStorage w);
                   sent := sent w |}).

(** [localStorage.removeItem(key)]. *)
Definition removeItem (key : string) : M (J:=J) (E:=E) unit :=
  λ w, (inr (), {| localStorage := delete key (localStorage w);
                   sent := sent w |}).

(** [try { m } catch (error) { handler }]. *)
Definition try_catch {A} (m : M (J:=J) (E:=E) A)
    (handler : Thrown E → M (J:=J) (E:=E) A) : M (J:=J) (E:=E) A :=
  λ w, match m w with
       | (inr a, w') => (inr a, w')
       | (inl e, w') => handler e w'
       end.

End Storage.
End Effects.

(** ** services/authService.ts *)

Module authService.
Import Http Effects.

Module AUTH_ENDPOINTS.

Definition LOGIN (base : string) : string := base +:+ "/auth/token".
Definition REGISTER (base : string) : string := base +:+ "/users".
Definition CURRENT_USER (base : string) : string := base +:+ "/users/me".

End AUTH_ENDPOINTS.

Section Service.
Context {J R E : Type}.
Context (API_BASE_URL : string) (axios : Request J → E + R).

Definition register (userData : J) : M R :=
  let* response :=
    send axios (mkRequest POST (AUTH_ENDPOINTS.REGISTER API_BASE_URL)
                  (Payload userData) ∅) in
  ret response.

Definition getCurrentUser : M R :=
  let* token := getItem "token" in
  if falsy token then throw (Error "No authentication token found")
  else
    let* response :=
      send axios (mkRequest GET (AUTH_ENDPOINTS.CURRENT_USER API_BASE_URL) NoBody
        {[ "Authorization" := "Bearer " +:+ template token ]}) in
    ret response.

(** [!!localStorage.getItem('token')]. *)
Definition isAuthenticated : M (J:=J) (E:=E) bool :=
  let* token := getItem "token" in
  ret (negb (falsy token)).

Definition logout : M (J:=J) (E:=E) unit := removeItem "token".

Definition setToken (token : string) : M (J:=J) (E:=E) unit :=
  setItem "token" token.

Definition getToken : M (J:=J) (E:=E) (option string) := getItem "token".

(** The request callback of [setupAuthInterceptors]: with a token, the
    [Authorization] header is set, over whatever the request had. *)
Definition requestInterceptor (config : Request J) : M (J:=J) (E:=E) (Request J) :=
  let* token := getItem "token" in
  if negb (falsy token)
  then ret (mkRequest (method config) (url config) (data config)
              (<[ "Authorization" := "Bearer " +:+ template token ]> (headers config)))
  else ret config.

End Service.
End authService.

(** ** contexts/AuthContext.tsx: [loadUser] *)

Module AuthContext.
Import Http Effects.

(** The state of [AuthProvider]; [User] is the type of the user data the
    server sends. *)
Record AuthState {User : Type} : Type := mkAuthState {
  user : option User;
  loading : bool;
  error : option string;
  isAuthenticated : bool
}.
Arguments AuthState : clear implicits.
Arguments mkAuthState {User}.

Section Provider.
Context {J User E : Type}.
Context (API_BASE_URL : string) (axios : Request J → E + User).

(** The state [useState] starts with. *)
Definition initial : AuthState User :=
  {| user := None; loading := true; error := None; isAuthenticated := false |}.

(** [loadUser()]: the [try] block, the [catch] block and the [finally]
    block, as state updates on [s]. *)
Definition loadUser (s : AuthState User) : M (J:=J) (E:=E) (AuthState User) :=
  let* s' :=
    try_catch
      (let* authenticated := authService.isAuthenticated in
       if authenticated : bool
       then
         let* userData := authService.getCurrentUser API_BASE_URL axios in
         ret {| user := Some userData; loading := true; error := error s;
                isAuthenticated := true |}
       else ret s)
      (λ _,
         let* _ := authService.logout in
         ret {| user := None; loading := true;
                error := Some "Session expired. Please log in again.";
                isAuthenticated := false |}) in
  ret {| user := user s'; loading := false; error := error s';
         isAuthenticated := isAuthenticated s' |}.

End Provider.
End AuthContext.

(** ** utils/api-helpers.ts: the interceptors *)

Module apiInterceptors.
Import Http Effects.

(** The browser as the response interceptor sees it: the storage and the
    requests sent, [window.location.pathname], and the addresses assigned
    to [window.location.href]. *)
Record Window {J : Type} : Type := mkWindow {
  world : World J;
  pathname : string;
  assigned : list string
}.
Arguments Window : clear implicits.
Arguments mkWindow {J}.

Section Interceptors.
Context {J E : Type}.
(** [error.response?.status]. *)
Context (status : E → option Z).
Context (encodeURIComponent : string → string).

(** The request callback of [setupAxiosInterceptors]. *)
Definition requestInterceptor (config : Request J) : M (J:=J) (E:=E) (Request J) :=
  let* token := getItem "token" in
  if negb (falsy token) && falsy (headers config !! "Authorization")
  then ret (mkRequest (method config) (url config) (data config)
              (<[ "Authorization" := "Bearer " +:+ template token ]> (headers config)))
  else ret config.

(** The rejection callback of the response interceptor: what the promise
    it returns rejects with, and the browser afterwards. *)
Definition responseErrorInterceptor (error : E) (win : Window J) : E * Window J :=
  (error,
   if bool_decide (status error = Some 401%Z)
   then
     {| world := (removeItem (E:=E) "token" (world win)).2;
        pathname := pathname win;
        assigned :=
          if bool_decide (pathname win ≠ "/login")
          then assigned win
                 ++ ["/login?returnUrl=" +:+ encodeURIComponent (pathname win)]
          else assigned win |}
   else win).

End Interceptors.
End apiInterceptors.

(** ** services/booksService.ts: the operations *)

Module booksOperations.
Import Http.

Module BOOKS_ENDPOINTS.

Definition LIST (base : string) : string := base +:+ "/books".
Definition DETAIL (base : string) (id : string) : string := base +:+ "/books/" +:+ id.
Definition CREATE (base : string) : string := base +:+ "/books".
Definition UPDATE (base : string) (id : string) : string := base +:+ "/books/" +:+ id.
Definition DELETE (base : string) (id : string) : string := base +:+ "/books/" +:+ id.

End BOOKS_ENDPOINTS.

(** The download formats ['pdf' | 'epub' | 'zip']. *)
Inductive Format : Type := pdf | epub | zip.

Definition format_text (format : Format) : string :=
  match format with
  | pdf => "pdf"
  | epub => "epub"
  | zip => "zip"
  end.

Section Service.
Context {J R : Type}.
Context (API_BASE_URL : string) (axios : Request J → apiHelpers.Caught + R).

Definition getBooks : M R :=
  apiHelpers.apiRequest axios
    (mkRequest GET (BOOKS_ENDPOINTS.LIST API_BASE_URL) NoBody ∅).

Definition getBook (bookId : string) : M R :=
  apiHelpers.apiRequest axios
    (mkRequest GET (BOOKS_ENDPOINTS.DETAIL API_BASE_URL bookId) NoBody ∅).

Definition createBook (bookData : J) : M R :=
  apiHelpers.apiRequest axios
    (mkRequest POST (BOOKS_ENDPOINTS.CREATE API_BASE_URL) (Payload bookData) ∅).

Definition updateBook (bookId : string) (bookData : J) : M R :=
  apiHelpers.apiRequest axios
    (mkRequest PATCH (BOOKS_ENDPOINTS.UPDATE API_BASE_URL bookId) (Payload bookData) ∅).

Definition deleteBook (bookId : string) : M R :=
  apiHelpers.apiRequest axios
    (mkRequest DELETE (BOOKS_ENDPOINTS.DELETE API_BASE_URL bookId) NoBody ∅).

Definition generateBook (bookId : string) (params : J) : M R :=
  apiHelpers.apiRequest axios
    (mkRequest POST (API_BASE_URL +:+ "/books/" +:+ bookId +:+ "/generate")
       (Payload params) ∅).

Definition getGenerationStatus (bookId : string) : M R :=
  apiHelpers.apiRequest axios
    (mkRequest GET (API_BASE_URL +:+ "/books/" +:+ bookId +:+ "/status") NoBody ∅).

(** The two blob requests go to axios directly; the header is built from
    whatever [localStorage.getItem('token')] returns.  ([responseType] only
    tells axios how to decode the answer; it is no part of the request.) *)
Definition getBookPreview (bookId : string) : M R :=
  let* token := getItem "token" in
  let* response :=
    send axios (mkRequest GET (API_BASE_URL +:+ "/books/" +:+ bookId +:+ "/preview")
      NoBody {[ "Authorization" := "Bearer " +:+ template token ]}) in
  ret response.

Definition downloadBook (bookId : string) (format : Format) : M R :=
  let* token := getItem "token" in
  let* response :=
    send axios (mkRequest GET
      (API_BASE_URL +:+ "/books/" +:+ bookId +:+ "/download?format="
         +:+ format_text format)
      NoBody {[ "Authorization" := "Bearer " +:+ template token ]}) in
  ret response.

Definition sendToCanva (bookId : string) : M R :=
  apiHelpers.apiRequest axios
    (mkRequest POST (API_BASE_URL +:+ "/books/" +:+ bookId +:+ "/canva") NoBody ∅).

End Service.
End booksOperations.

(** ** The operations that go through [apiRequest] *)

Module ApiOperations.
Import Http.

Section Operations.
Context {J R : Type}.
Context (API_BASE_URL : string).
Context (axios : Request J → apiHelpers.Caught + R).
Context (axios_status
  : Request J → apiHelpers.Caught + generationService.GenerationStatusResponse).

(** A property of the three operations of generationService and of the
    operations of booksService that call [apiRequest]; [P] is given the
    server the operation talks to. *)
Definition every_operation
    (P : ∀ A R', (Request J → apiHelpers.Caught + R')
                 → M (J:=J) (E:=apiHelpers.Caught) A → Prop) : Prop :=
  (∀ request, P _ _ axios (generationService.startGeneration API_BASE_URL axios request)) ∧
  (∀ bookId, P _ _ axios_status
               (generationService.getGenerationStatus API_BASE_URL axios_status bookId)) ∧
  (∀ bookId, P _ _ axios (generationService.cancelGeneration API_BASE_URL axios bookId)) ∧
  P _ _ axios (booksOperations.getBooks API_BASE_URL axios) ∧
  (∀ bookId, P _ _ axios (booksOperations.getBook API_BASE_URL axios bookId)) ∧
  (∀ bookData, P _ _ axios (booksOperations.createBook API_BASE_URL axios bookData)) ∧
  (∀ bookId bookData,
     P _ _ axios (booksOperations.updateBook API_BASE_URL axios bookId bookData)) ∧
  (∀ bookId, P _ _ axios (booksOperations.deleteBook API_BASE_URL axios bookId)) ∧
  (∀ bookId params,
     P _ _ axios (booksOperations.generateBook API_BASE_URL axios bookId params)) ∧
  (∀ bookId, P _ _ axios (booksOperations.getGenerationStatus API_BASE_URL axios bookId)) ∧
  (∀ bookId, P _ _ axios (booksOperations.sendToCanva API_BASE_URL axios bookId)).

(** The call sends exactly one request, which has no header of its own,
    and leaves [localStorage] alone; it resolves when axios answers and
    rejects with the formatted message when axios rejects. *)
Definition sends_bare {A R'} (server : Request J → apiHelpers.Caught + R')
    (c : M (J:=J) (E:=apiHelpers.Caught) A) (w : World J) : Prop :=
  ∃ r, sent (c w).2 = sent w ++ [r] ∧
       localStorage (c w).2 = localStorage w ∧
       headers r = ∅ ∧
       match server r with
       | inr _ => ∃ a, (c w).1 = inr a
       | inl e => (c w).1 = inl (Error (apiHelpers.formatErrorMessage e))
       end.

End Operations.
End ApiOperations.

(** ** utils/validation.ts *)

Module validation.

(** [ValidationResult]; [error] is [None] when the object has no such
    field. *)
Record ValidationResult : Type := mkValidationResult {
  isValid : bool;
  error : option string
}.

(** The literal [{ isValid: true }]. *)
Definition valid : ValidationResult := {| isValid := true; error := None |}.

(** The literal [{ isValid: false, error: message }]. *)
Definition invalid (message : string) : ValidationResult :=
  {| isValid := false; error := Some message |}.

(** A value handed to a validator, of TypeScript type [any]: [undefined],
    [null], a string, a number (an integer), a boolean, a plain object
    (which has no [length]), or a function, whose [length] is the number
    of its parameters. *)
Inductive Value : Type :=
| VUndefined
| VNull
| VString (s : string)
| VNumber (n : Z)
| VBoolean (b : bool)
| VObject
| VFunction (arity : Z).

#[global] Instance Value_eq_dec : EqDecision Value.
Proof. solve_decision. Defined.

(** JavaScript truthiness. *)
Definition truthy (value : Value) : bool :=
  match value with
  | VUndefined | VNull => false
  | VString s => Js.truthy_string s
  | VNumber n => negb (bool_decide (n = 0%Z))
  | VBoolean b => b
  | VObject | VFunction _ => true
  end.

(** [value.length] of a truthy value: a string has its number of UTF-16
    code units, a function its number of parameters, the other values give
    [undefined]. *)
Definition length_of (value : Value) : option Z :=
  match value with
  | VString s => Some (Z.of_nat (Js.utf16_length s))
  | VFunction arity => Some arity
  | _ => None
  end.

(** A parameter declared as [fieldName = 'This field']: the default stands
    in for an argument that is left out. *)
Definition field_name (fieldName : option string) : string :=
  default "This field" fieldName.

Definition required (value : Value) (fieldName : option string) : ValidationResult :=
  if bool_decide (value = VUndefined) || bool_decide (value = VNull)
     || bool_decide (value = VString "")
  then invalid (field_name fieldName +:+ " is required")
  else valid.

(** A comparison with [undefined] is false; numbers print in decimal. *)
Definition minLength (value : Value) (min_length : Z) (fieldName : option string)
    : ValidationResult :=
  if negb (truthy value) then valid
  else if match length_of value with
          | Some l => (l <? min_length)%Z
          | None => false
          end
  then invalid (field_name fieldName +:+ " must be at least "
                +:+ pretty min_length +:+ " characters")
  else valid.

Definition maxLength (value : Value) (max_length : Z) (fieldName : option string)
    : ValidationResult :=
  if negb (truthy value) then valid
  else if match length_of value with
          | Some l => (max_length <? l)%Z
          | None => false
          end
  then invalid (field_name fieldName +:+ " must be at most "
                +:+ pretty max_length +:+ " characters")
  else valid.

(** [composeValidators(...validators)(value)]: the result of the first
    validator that does not accept, or [{ isValid: true }]. *)
Fixpoint composeValidators (validators : list (Value → ValidationResult))
    (value : Value) : ValidationResult :=
  match validators with
  | [] => valid
  | validator :: rest =>
      let result := validator value in
      if negb (isValid result) then result
      else composeValidators rest value
  end.

(** [errors[field] = v] on the object literal [{}]: an own property is
    written, except under the name ['__proto__'], whose setter ignores a
    string and [undefined]. *)
Definition assign (field : string) (v : option string)
    (errors : gmap string (option string)) : gmap string (option string) :=
  if decide (field = "__proto__") then errors else <[field := v]> errors.

(** One round of the loop of [validateForm]. *)
Definition validateField (values : string → Value)
    (acc : bool * gmap string (option string))
    (entry : string * (Value → ValidationResult))
    : bool * gmap string (option string) :=
  let result := entry.2 (values entry.1) in
  if negb (isValid result)
  then (false, assign entry.1 (error result) acc.2)
  else (acc.1, assign entry.1 None acc.2).

(** [validateForm(values, validationSchema)].  [values field] is what
    [values[field]] reads; the schema is given by its own enumerable
    properties in the order [for ... in] visits them.  In the errors, a
    property set to [undefined] is [Some None]. *)
Definition validateForm (values : string → Value)
    (validationSchema : list (string * (Value → ValidationResult)))
    : bool * gmap string (option string) :=
  foldl (validateField values) (true, ∅) validationSchema.

End validation.

(** ** hooks/useForm.ts: validation and submission *)

Module useForm.
Import validation.

Section Hook.
(** [T], the type of the form's values, with the property read
    [values[field]]. *)
Context {T : Type} (read : T → string → Value).
Context (validationSchema : list (string * (Value → ValidationResult))).

(** [FormState<T>]; [form_isValid] is its field [isValid]. *)
Record FormState : Type := mkFormState {
  values : T;
  errors : gmap string (option string);
  touched : gmap string bool;
  form_isValid : bool;
  isSubmitting : bool
}.

(** The state [useState] starts with. *)
Definition initialState (initialValues : T) : FormState :=
  {| values := initialValues; errors := ∅; touched := ∅;
     form_isValid := bool_decide (length validationSchema = 0);
     isSubmitting := false |}.

Definition validateValues (v : T) : bool * gmap string (option string) :=
  if decide (length validationSchema = 0) then (true, ∅)
  else validateForm (read v) validationSchema.

(** [if (errors[key])] for an entry of [errors]. *)
Definition truthy_message (e : option string) : bool :=
  match e with
  | Some m => Js.truthy_string m
  | None => false
  end.

(** The fields with an error become touched. *)
Definition touchAll (errs : gmap string (option string))
    (touched0 : gmap string bool) : gmap string bool :=
  ((λ _ : option string, true) <$> filter (λ kv, truthy_message kv.2 = true) errs)
    ∪ touched0.

(** [handleSubmit], up to the call of [onSubmit]: the state it sets and
    the values [onSubmit] is called with, if it is called. *)
Definition handleSubmit (formState : FormState) : FormState * option T :=
  let r := validateValues (values formState) in
  ({| values := values formState;
      errors := r.2;
      touched := touchAll r.2 (touched formState);
      form_isValid := r.1;
      isSubmitting := r.1 |},
   if r.1 then Some (values formState) else None).

End Hook.

Arguments FormState : clear implicits.

End useForm.

(** ** components/books/BookForm.tsx: the form's values and schema *)

Module BookForm.
Import validation.

(** The values of the form are a [BookCreationRequest]: an object with the
    two properties [metadata] and [template_id].  The hook writes a field
    through [setNestedValue], which splits the field's name at every dot,
    so the values never get a property whose name contains one. *)
Record BookCreationRequest {Metadata : Type} : Type := mkBookCreationRequest {
  metadata : Metadata;
  template_id : string
}.
Arguments BookCreationRequest : clear implicits.

(** What every object inherits from [Object.prototype]: the constructor
    and the methods are functions, each with its number of parameters, and
    [__proto__] reads as the prototype, an object. *)
Definition Object_prototype : list (string * Value) :=
  [("constructor", VFunction 1); ("hasOwnProperty", VFunction 1);
   ("isPrototypeOf", VFunction 1); ("propertyIsEnumerable", VFunction 1);
   ("toLocaleString", VFunction 0); ("toString", VFunction 0);
   ("valueOf", VFunction 0); ("__proto__", VObject);
   ("__defineGetter__", VFunction 2); ("__defineSetter__", VFunction 2);
   ("__lookupGetter__", VFunction 1); ("__lookupSetter__", VFunction 1)].

(** The value of the property [name] among [properties], [undefined] when
    there is none. *)
Fixpoint property (name : string) (properties : list (string * Value)) : Value :=
  match properties with
  | [] => VUndefined
  | (n, v) :: rest => if decide (n = name) then v else property name rest
  end.

(** [values[field]]: an own property, an inherited one, or [undefined]. *)
Definition read {Metadata : Type} (values : BookCreationRequest Metadata)
    (field : string) : Value :=
  if decide (field = "metadata") then VObject
  else if decide (field = "template_id") then VString (template_id values)
  else property field Object_prototype.

Definition title_validator : Value → ValidationResult :=
  composeValidators
    [λ val, required val (Some "Title");
     λ val, minLength val 3 (Some "Title");
     λ val, maxLength val 100 (Some "Title")].

Definition author_validator : Value → ValidationResult :=
  composeValidators
    [λ val, required val (Some "Author");
     λ val, maxLength val 50 (Some "Author")].

Definition theme_validator : Value → ValidationResult :=
  composeValidators
    [λ val, required val (Some "Theme");
     λ val, maxLength val 50 (Some "Theme")].

(** The [validationSchema] handed to [useForm]. *)
Definition validationSchema : list (string * (Value → ValidationResult)) :=
  [("metadata.title", title_validator);
   ("metadata.author", author_validator);
   ("metadata.theme", theme_validator);
   ("template_id", λ value, required value (Some "Template"))].

End BookForm.

(** ** What a caller sees of a job's status and failure *)

Module StatusReport.
Import Http generationService.

(** *** Status values and the transitions the pages perform *)




(** The changes of status along a list of statuses. *)
Fixpoint transitions (l : list GenerationStatus)
    : list (GenerationStatus * GenerationStatus) :=
  match l with
  | a :: ((b :: _) as rest) =>
      if decide (a = b) then transitions rest else (a, b) :: transitions rest
  | _ => []
  end.

(** The statuses of a generation job on BookCreatePage, from the initial
    state on, along the states of a run of the page. *)
Definition create_page_statuses {Book : Type}
    (trace : list (BookCreatePage.PageState Book)) : list GenerationStatus :=
  BookCreatePage.statuses (BookCreatePage.initial_state :: trace).

(** The same on BookGenerationPage, opened on the route [id]. *)
Definition generation_page_statuses {Book : Type} (id : option string)
    (trace : list (BookGenerationPage.PageState Book)) : list GenerationStatus :=
  BookGenerationPage.statuses (BookGenerationPage.initial_state id :: trace).









(** *** Failure reports *)

(** The cause a caught value carries, as the pages read it: the message
    of an [Error]; a thrown value that is no [Error] has none. *)
Definition cause (err : apiHelpers.Caught) : option string :=
  match err with
  | apiHelpers.CaughtAxiosError _ message | apiHelpers.CaughtError message =>
      Some message
  | apiHelpers.CaughtOther => None
  end.



End StatusReport.

(** ** The Book Pipeline (specification §3, §4.5)

    The pipeline runs in the back end, which is not among the sources: the
    front end only calls its endpoints ([cancelGeneration],
    [getGenerationStatus]).  The model below follows the specification's
    description of the stage loop. *)

Module BookPipeline.

(** Modelled from the spec: the [status] field of a BookJob (§3); the back
    end's job record is missing from the sources. *)
Inductive Status : Type :=
| Pending
| Running
| Succeeded
| Failed
| Cancelled.

#[global] Instance Status_eq_dec : EqDecision Status.
Proof. solve_decision. Defined.

(** Modelled from the spec: the glossary's terminal states (Succeeded,
    Failed, Cancelled); the back end is missing from the sources. *)
Definition terminal (s : Status) : bool :=
  match s with
  | Succeeded | Failed | Cancelled => true
  | Pending | Running => false
  end.

(** Modelled from the spec: the fixed pipeline shape text → images →
    layout → export (§3); the stage definitions are missing from the
    sources. *)
Definition pipeline_shape : list string := ["text"; "images"; "layout"; "export"].

Section Pipeline.
Context {Payload : Type}.

(** Modelled from the spec: the BookJob record of §3 (the per-stage retry
    counters live inside the Stage Executor and are left out); the back
    end's job record is missing from the sources. *)
Record BookJob : Type := mkBookJob {
  id : string;
  stages : list string;
  currentStageIndex : nat;
  stageOutputs : gmap string Payload;
  status : Status;
  lastError : option string
}.

(** Modelled from the spec: what the Stage Executor's
    [execute(bookJob, stageIndex) -> (output, error)] answers (§4.4); the
    executor is missing from the sources. *)
Inductive StageResult : Type :=
| StageOk (output : Payload)
| StageError (cause : string).

(** Modelled from the spec: a running Book Pipeline (§4.5): its job
    record, whether a stage call is in flight, whether cancellation has
    been requested, and the stages on which the Stage Executor was invoked,
    in order; the pipeline task is missing from the sources. *)
Record Pipeline : Type := mkPipeline {
  job : BookJob;
  inFlight : bool;
  cancelRequested : bool;
  invocations : list string
}.

(** Modelled from the spec: what can happen to a pipeline (§4.5, §6): it
    is started, reaches the top of a stage-loop iteration, gets the answer
    of the stage call in flight, is asked to cancel ([CancelJob]) or is
    resumed by its caller; the pipeline task is missing from the sources. *)
Inductive Event : Type :=
| Start
| Iterate
| StageReturned (r : StageResult)
| RequestCancel
| Resume.

(** Modelled from the spec: a job as created, Pending with no outputs
    (§4.6); job creation is missing from the sources. *)
Definition create (id : string) (stages : list string) : Pipeline :=
  {| job := {| id := id; stages := stages; currentStageIndex := 0;
               stageOutputs := ∅; status := Pending; lastError := None |};
     inFlight := false; cancelRequested := false; invocations := [] |}.

(** Modelled from the spec: a change of the [status] field alone (§4.5);
    the pipeline task is missing from the sources. *)
Definition with_status (st : Status) (j : BookJob) : BookJob :=
  {| id := id j; stages := stages j; currentStageIndex := currentStageIndex j;
     stageOutputs := stageOutputs j; status := st; lastError := lastError j |}.

(** Modelled from the spec: "on success, atomically write
    [stageOutputs[stage]] and increment [currentStageIndex]" (§4.5), with
    [lastError] cleared (§3); the pipeline task is missing from the
    sources. *)
Definition stage_succeeded (name : string) (output : Payload) (j : BookJob) : BookJob :=
  {| id := id j; stages := stages j;
     currentStageIndex := S (currentStageIndex j);
     stageOutputs := <[name := output]> (stageOutputs j);
     status := status j; lastError := None |}.

(** Modelled from the spec: "on stage failure, set [status = Failed],
    record [lastError], stop" (§4.5); the pipeline task is missing from the
    sources. *)
Definition stage_failed (cause : string) (j : BookJob) : BookJob :=
  {| id := id j; stages := stages j; currentStageIndex := currentStageIndex j;
     stageOutputs := stageOutputs j; status := Failed; lastError := Some cause |}.

(** Modelled from the spec: a stage call that fails after cancellation
    was requested.  "An in-flight provider call is allowed to finish or
    terminally fail before cancellation is observed" (§5), and a job
    cancelled mid-stage ends "[Cancelled], not [Failed]" (§8): the failure
    is recorded in [lastError] and the job is Cancelled.  The pipeline task
    is missing from the sources. *)
Definition stage_cancelled (cause : string) (j : BookJob) : BookJob :=
  {| id := id j; stages := stages j; currentStageIndex := currentStageIndex j;
     stageOutputs := stageOutputs j; status := Cancelled; lastError := Some cause |}.

(** Modelled from the spec: one step of the Book Pipeline (§4.5, §5);
    [None] when the event cannot happen in this state.  The loop runs "for
    each stage from [currentStageIndex] to end".  Cancellation is "checked
    at the top of each stage-loop iteration", the cooperative cancellation
    point: there a job whose cancellation was requested is Cancelled;
    otherwise it has Succeeded when no stage is left, and else the Stage
    Executor is invoked.  A cancellation request never interrupts the call
    in flight: the call finishes, and its output is written, or it fails,
    and only then is the request observed.  A stage that fails with no
    cancellation requested makes the job Failed.  The pipeline task is
    missing from the sources. *)
Definition step (e : Event) (p : Pipeline) : option Pipeline :=
  let j := job p in
  match e with
  | Start =>
      if decide (status j = Pending)
      then Some {| job := with_status Running j; inFlight := false;
                   cancelRequested := cancelRequested p;
                   invocations := invocations p |}
      else None
  | Iterate =>
      if decide (status j = Running) then
        if inFlight p then None
        else if cancelRequested p
        then Some {| job := with_status Cancelled j; inFlight := false;
                     cancelRequested := cancelRequested p;
                     invocations := invocations p |}
        else
          match stages j !! currentStageIndex j with
          | None =>
              Some {| job := with_status Succeeded j; inFlight := false;
                      cancelRequested := cancelRequested p;
                      invocations := invocations p |}
          | Some name =>
              Some {| job := j; inFlight := true;
                      cancelRequested := cancelRequested p;
                      invocations := invocations p ++ [name] |}
          end
      else None
  | StageReturned r =>
      if inFlight p then
        match stages j !! currentStageIndex j with
        | None => None
        | Some name =>
            Some {| job := match r with
                           | StageOk output => stage_succeeded name output j
                           | StageError cause =>
                               if cancelRequested p then stage_cancelled cause j
                               else stage_failed cause j
                           end;
                    inFlight := false;
                    cancelRequested := cancelRequested p;
                    invocations := invocations p |}
        end
      else None
  | RequestCancel =>
      Some {| job := j; inFlight := inFlight p; cancelRequested := true;
              invocations := invocations p |}
  | Resume =>
      if decide (status j = Failed)
      then Some {| job := with_status Running j; inFlight := false;
                   cancelRequested := cancelRequested p;
                   invocations := invocations p |}
      else None
  end.

(** Modelled from the spec: a sequence of steps (§4.5); the pipeline task
    is missing from the sources. *)
Fixpoint run (evs : list Event) (p : Pipeline) : option Pipeline :=
  match evs with
  | [] => Some p
  | e :: rest =>
      match step e p with
      | Some p' => run rest p'
      | None => None
      end
  end.

(** Modelled from the spec: the states a job created with distinct stage
    names can be in (§3, §4.5); the pipeline task is missing from the
    sources. *)
Definition reachable (p : Pipeline) : Prop :=
  ∃ id stages evs, NoDup stages ∧ run evs (create id stages) = Some p.

(** The invariant of reachable pipelines: the outputs recorded are those of
    the stages before [currentStageIndex], and a call is in flight only for
    a running job with a stage left. *)
Record wf (p : Pipeline) : Prop := mkWf {
  wf_nodup : NoDup (stages (job p));
  wf_index : currentStageIndex (job p) ≤ length (stages (job p));
  wf_outputs : ∀ name, is_Some (stageOutputs (job p) !! name) ↔
                        name ∈ take (currentStageIndex (job p)) (stages (job p));
  wf_inflight : inFlight p = true →
                status (job p) = Running ∧
                currentStageIndex (job p) < length (stages (job p))
}.

(** [name] is a stage at or after the job's [currentStageIndex]. *)
Definition at_or_after (p : Pipeline) (name : string) : Prop :=
  ∃ i, currentStageIndex (job p) ≤ i ∧ stages (job p) !! i = Some name.


End Pipeline.

Arguments BookJob : clear implicits.
Arguments StageResult : clear implicits.
Arguments Pipeline : clear implicits.
Arguments Event : clear implicits.

(** *** Examples *)

(** A book whose text stage succeeded and whose images stage failed. *)
Definition failed_at_images : Pipeline string :=
  {| job := {| id := "book-1"; stages := pipeline_shape;
               currentStageIndex := 1;
               stageOutputs := {[ "text" := "asset-17" ]};
               status := Failed; lastError := Some "quota exceeded" |};
     inFlight := false; cancelRequested := false;
     invocations := ["text"; "images"] |}.

(** The resumed run: images and layout succeed. *)
Definition resumed_events : list (Event string) :=
  [Iterate; StageReturned (StageOk "asset-18");
   Iterate; StageReturned (StageOk "asset-19")].

Definition resumed_at_export : Pipeline string :=
  {| job := {| id := "book-1"; stages := pipeline_shape;
               currentStageIndex := 3;
               stageOutputs := <[ "layout" := "asset-19" ]>
                                 (<[ "images" := "asset-18" ]>
                                    {[ "text" := "asset-17" ]});
               status := Running; lastError := None |};
     inFlight := false; cancelRequested := false;
     invocations := ["text"; "images"; "images"; "layout"] |}.

(** A book whose text stage succeeded and whose images stage is in
    flight. *)
Definition images_in_flight : Pipeline string :=
  {| job := {| id := "book-2"; stages := pipeline_shape;
               currentStageIndex := 1;
               stageOutputs := {[ "text" := "asset-21" ]};
               status := Running; lastError := None |};
     inFlight := true; cancelRequested := false;
     invocations := ["text"; "images"] |}.


End BookPipeline.


(** * Part II: properties

    Everything above is the model; what follows are the facts proved about
    it.  The statement of each claim of the specification is preceded by
    the claim's number. *)

(** ** JavaScript values *)

Module JsFacts.
Import Js.

Lemma truthy_string_nonempty (t : string) : t ≠ "" → truthy_string t = true.
Proof. intros H. unfold truthy_string. by destruct (decide (t = "")). Qed.

End JsFacts.

(** ** The metadata conversions of generationService.ts *)

Module ConversionFacts.
Import booksService generationService.

Lemma or_undefined_or_empty (v : Js.OptString) :
  Js.or_undefined (Js.or_empty v) = normalized_focus v.
Proof.
  destruct v as [| |s]; try reflexivity.
  unfold Js.or_empty, Js.or_undefined, Js.truthy_string, normalized_focus.
  destruct (decide (s = "")) as [->|Hs]; [reflexivity|].
  destruct (decide (s = "")); [contradiction|reflexivity].
Qed.

Lemma book_type_round_trip (t : string) :
  t = "story" ∨ t = "coloring" →
  (if decide (t = "coloring") then "coloring" else "story") = t.
Proof. intros [->| ->]; reflexivity. Qed.

(** C10. For metadata whose [book_type] is 'story' or 'coloring',
    [convertToBookMetadata (convertFromBookMetadata m)] keeps [age_group],
    [book_type], [theme] and [page_count]; its [title] is [m.theme], its
    [author] is 'AI Generated', its [trim_size] is '8.5x11'; and
    [educational_focus] is kept when it is a non-empty string and becomes
    [undefined] when it is [null], [undefined] or the empty string. *)
Theorem convert_round_trip {number : Type} (m : BookMetadata number) :
  book_type m = "story" ∨ book_type m = "coloring" →
  let r := convertToBookMetadata (convertFromBookMetadata m) in
  age_group r = age_group m ∧
  book_type r = book_type m ∧
  theme r = theme m ∧
  page_count r = page_count m ∧
  title r = theme m ∧
  author r = "AI Generated" ∧
  trim_size r = "8.5x11" ∧
  educational_focus r = normalized_focus (educational_focus m) ∧
  (∀ s, educational_focus m = Js.Str s → s ≠ "" →
        educational_focus r = Js.Str s) ∧
  (educational_focus m = Js.Null ∨ educational_focus m = Js.Str "" →
        educational_focus r = Js.Undefined).
Proof.
  intros Hty. cbn.
  repeat split; try reflexivity.
  - by apply book_type_round_trip.
  - apply or_undefined_or_empty.
  - intros s Hs Hne. rewrite or_undefined_or_empty, Hs. cbn.
    destruct (decide (s = "")); [contradiction|reflexivity].
  - intros [H|H]; rewrite or_undefined_or_empty, H; reflexivity.
Qed.

Lemma convert_round_trip_witness :
  let r := convertToBookMetadata (convertFromBookMetadata sample_metadata) in
  book_type r = "coloring" ∧ educational_focus r = Js.Str "counting" ∧
  title r = "Magic" ∧ page_count r = 24%Z.
Proof.
  pose proof (convert_round_trip sample_metadata (or_intror eq_refl)) as H.
  cbv zeta in *. destruct H as (_ & Hb & _ & Hp & Ht & _ & _ & Hf & _).
  split; [exact Hb|]. split; [exact Hf|]. split; [exact Ht|exact Hp].
Defined.

End ConversionFacts.

(** ** The token guard of the batch and Canva services *)

Module AuthGuardFacts.
Import Http AuthGuard.

(** Every operation has one shape: read the token, throw when it is falsy,
    otherwise send one request built from it and finish without further
    effects. *)
Lemma guarded_shape {J R E A : Type} (axios : Request J → E + R)
    (request : option string → Request J) (finish : R → M (J:=J) (E:=E) A) :
  (∀ token, headers (request token) !! "Authorization"
            = Some ("Bearer " +:+ template token)) →
  (∀ r w, (finish r w).2 = w) →
  token_guard A
    (let* token := getItem "token" in
     if falsy token then throw (Error "No authentication token found")
     else let* response := send axios (request token) in finish response).
Proof.
  intros Hhdr Hfin w.
  unfold rejects_without_request, sends_with_bearer, bind, getItem, throw, send.
  cbn. split.
  - intros [Hw|Hw]; rewrite Hw; cbn; by repeat split.
  - intros t Hw Hne. rewrite Hw. cbn.
    rewrite (JsFacts.truthy_string_nonempty t Hne). cbn.
    exists (request (Some t)). split; [|apply Hhdr].
    destruct (axios (request (Some t))) as [e|d]; cbn; [reflexivity|].
    by rewrite Hfin.
Qed.

Lemma ret_pure {J E A : Type} (a : A) (w : World J) : (ret (E:=E) a w).2 = w.
Proof. reflexivity. Qed.

(** C9 (as the code has it). Each of [getBatchJobs], [getBatchJob],
    [createBatchJob], [checkBatchJobStatus], [cancelBatchJob],
    [getTemplates], [getDesignPreview] and [exportDesign]: when
    [localStorage] holds no ['token'] entry, or holds the empty string, the
    call throws 'No authentication token found' and issues no request;
    when it holds a non-empty token, exactly one request goes out and its
    [Authorization] header is ['Bearer '] followed by that token. *)
Theorem token_guard_every_operation {J R E : Type}
    (API_BASE_URL : string) (axios : Request J → E + R) :
  every_operation API_BASE_URL axios (@token_guard J E).
Proof.
  unfold every_operation. repeat apply conj; intros;
    (apply guarded_shape; [intros; by simplify_map_eq | intros; apply ret_pure]).
Qed.

(** C9 (as stated) fails: with the entry ['token'] set to the empty string
    a token entry is present, yet [getBatchJobs] throws and sends nothing. *)
Lemma token_guard_as_stated_fails :
  ¬ every_operation "http://localhost:8000/api/v1" unit_server
      (@token_guard_as_stated unit unit).
Proof.
  intros (H & _). destruct (H empty_token_world) as [_ Hsend].
  destruct (Hsend "" eq_refl) as (r & Hsent & _).
  vm_compute in Hsent. discriminate Hsent.
Qed.

Lemma token_guard_every_operation_witness :
  sends_with_bearer
    (batchService.cancelBatchJob "http://localhost:8000/api/v1" unit_server "42")
    signed_in_world "abc".
Proof.
  destruct (token_guard_every_operation (J:=unit) "http://localhost:8000/api/v1"
              unit_server) as (_ & _ & _ & _ & Hcancel & _).
  apply (proj2 (Hcancel "42" signed_in_world) "abc").
  - reflexivity.
  - discriminate.
Defined.

Lemma empty_token_rejected :
  (batchService.getBatchJobs "http://localhost:8000/api/v1" unit_server
     empty_token_world).1
  = inl (Error "No authentication token found").
Proof. reflexivity. Qed.

End AuthGuardFacts.

(** ** [generate_with_retry] *)

Module RetryFacts.
Import Retry.

Open Scope Z_scope.

Section Wrapper.
Context {V Exn : Type}.

(** *** The loop, attempt by attempt *)

Lemma delays_cons (rd : Z) (a n : nat) :
  delays rd a (S n) = rd * 2 ^ Z.of_nat a :: delays rd (S a) n.
Proof. reflexivity. Qed.

Lemma delays_lookup (rd : Z) (n i : nat) (w : Z) :
  delays rd 0 n !! i = Some w ↔ (i < n)%nat ∧ w = rd * 2 ^ Z.of_nat i.
Proof.
  unfold delays. rewrite list_lookup_fmap. split.
  - intros H. destruct (seq 0 n !! i) as [j|] eqn:Hj; [|discriminate].
    apply lookup_seq in Hj as [-> Hlt]. cbn in H. split; [lia|congruence].
  - intros [Hlt ->]. rewrite (lookup_seq_lt 0 n i Hlt). reflexivity.
Qed.

Lemma leading_failures_le (func : nat → Outcome V Exn) (n a : nat) :
  (leading_failures func a n ≤ n)%nat.
Proof.
  revert a. induction n as [|n IH]; intros a; cbn; [lia|].
  destruct (func a) as [v|[e|e|e]]; try lia. specialize (IH (S a)). lia.
Qed.

Lemma leading_failures_lt (func : nat → Outcome V Exn) (n a i : nat) :
  (i < leading_failures func a n)%nat ↔
  (i < n)%nat ∧ ∀ j, (a ≤ j ≤ a + i)%nat → ∃ e, func j = Raises (RateLimitError e).
Proof.
  revert a i. induction n as [|n IH]; intros a i; cbn.
  - split; [lia|intros [? _]; lia].
  - destruct (func a) as [v|[e|e|e]] eqn:Hfa.
    2:{ destruct i as [|i].
        - split; [intros _|intros _; lia]. split; [lia|].
          intros j Hj. assert (j = a) as -> by lia. eauto.
        - rewrite <- Nat.succ_lt_mono, IH. split.
          + intros [Hlt Hall]. split; [lia|]. intros j Hj.
            destruct (decide (j = a)) as [->|Hne]; [eauto|].
            apply Hall. lia.
          + intros [Hlt Hall]. split; [lia|]. intros j Hj. apply Hall. lia. }
    all: split; [lia|]; intros [_ Hall];
      destruct (Hall a ltac:(lia)) as [e' He']; congruence.
Qed.

(** The sleeps of a run: one per leading rate-limit failure that is not the
    last attempt, each exactly [retry_delay * 2 ** attempt]. *)
Lemma retry_loop_slept (mr : nat) (rd : Z) (func : nat → Outcome V Exn) :
  ∀ n a st, calls st = a → (a + n = mr)%nat →
    slept (retry_loop mr rd func (seq a n) st).2
    = slept st ++ delays rd a (leading_failures func a (n - 1)).
Proof.
  induction n as [|n IH]; intros a st Hc Hn; cbn [seq retry_loop].
  - cbn. by rewrite app_nil_r.
  - rewrite Hc. replace (S n - 1)%nat with n by lia.
    destruct (func a) as [v|[e|e|e]] eqn:Hfa.
    2:{ destruct (Nat.ltb_spec a (mr - 1)) as [Hlt|Hge].
        - rewrite IH; [|cbn; lia|lia]. cbn [asleep called slept].
          destruct n as [|n]; [lia|]. cbn [leading_failures]. rewrite Hfa.
          replace (S n - 1)%nat with n by lia.
          rewrite delays_cons, <- app_assoc. reflexivity.
        - assert (n = 0)%nat as -> by lia. cbn. by rewrite app_nil_r. }
    all: cbn; destruct n as [|n]; cbn; rewrite ?Hfa; cbn; by rewrite app_nil_r.
Qed.

(** [k] transient failures and then a value: the value comes back after
    [k + 1] invocations. *)
Lemma retry_loop_success (mr : nat) (rd : Z) (func : nat → Outcome V Exn) (v : V) :
  ∀ k n a st, calls st = a → (k < n)%nat → (a + k < mr)%nat →
    (∀ i, (a ≤ i < a + k)%nat → ∃ e, func i = Raises (RateLimitError e)) →
    func (a + k)%nat = Returns v →
    (retry_loop mr rd func (seq a n) st).1 = Returned v ∧
    calls (retry_loop mr rd func (seq a n) st).2 = (a + k + 1)%nat.
Proof.
  induction k as [|k IH]; intros n a st Hc Hn Hmr Hfail Hok;
    (destruct n as [|n]; [lia|]); cbn [seq retry_loop]; rewrite Hc.
  - rewrite Nat.add_0_r in Hok. rewrite Hok. cbn. split; [done|lia].
  - destruct (Hfail a ltac:(lia)) as [e He]. rewrite He.
    destruct (Nat.ltb_spec a (mr - 1)) as [Hlt|Hge]; [|lia].
    replace (a + S k + 1)%nat with (S a + k + 1)%nat by lia.
    apply IH; [cbn; lia|lia|lia| |].
    + intros i Hi. apply Hfail. lia.
    + by replace (S a + k)%nat with (a + S k)%nat by lia.
Qed.

(** Every attempt fails transiently: the last rate-limit error escapes
    after exactly [max_retries] invocations. *)
Lemma retry_loop_exhausted (mr : nat) (rd : Z) (func : nat → Outcome V Exn) :
  ∀ n a st, calls st = a → (0 < n)%nat → (a + n = mr)%nat →
    (∀ i, (a ≤ i < mr)%nat → ∃ e, func i = Raises (RateLimitError e)) →
    ∃ e, func (mr - 1)%nat = Raises (RateLimitError e) ∧
         (retry_loop mr rd func (seq a n) st).1 = Escaped (RateLimitError e) ∧
         calls (retry_loop mr rd func (seq a n) st).2 = mr.
Proof.
  induction n as [|n IH]; intros a st Hc Hpos Hn Hfail; [lia|].
  cbn [seq retry_loop]. rewrite Hc.
  destruct (Hfail a ltac:(lia)) as [e He]. rewrite He.
  destruct (Nat.ltb_spec a (mr - 1)) as [Hlt|Hge].
  - apply IH; [cbn; lia|lia|lia|]. intros i Hi. apply Hfail. lia.
  - assert (a = mr - 1)%nat as Ha by lia. exists e. cbn.
    split; [by rewrite <- Ha|]. split; [done|lia].
Qed.

(** [k] rate-limit failures and then an outcome of another kind: that
    outcome ends the run. *)
Lemma retry_loop_first_outcome (mr : nat) (rd : Z) (func : nat → Outcome V Exn) :
  ∀ k n a st, calls st = a → (k < n)%nat → (a + k < mr)%nat →
    (∀ i, (a ≤ i < a + k)%nat → ∃ e, func i = Raises (RateLimitError e)) →
    (∀ e, func (a + k)%nat ≠ Raises (RateLimitError e)) →
    retry_loop mr rd func (seq a n) st
    = (match func (a + k)%nat with
       | Returns v => Returned v
       | Raises r => Escaped r
       end,
       {| calls := S (a + k);
          slept := slept st ++ delays rd a k;
          logged := logged st ++ match func (a + k)%nat with
                                 | Raises (APIError e) => [e]
                                 | _ => []
                                 end |}).
Proof.
  induction k as [|k IH]; intros n a st Hc Hn Hmr Hfail Hother;
    (destruct n as [|n]; [lia|]); cbn [seq retry_loop]; rewrite Hc.
  - rewrite Nat.add_0_r in *. unfold called, logger_error. cbn. rewrite Hc.
    destruct (func a) as [v|[e|e|e]]; rewrite ?app_nil_r; try done.
    by destruct (Hother e).
  - destruct (Hfail a ltac:(lia)) as [e He]. rewrite He.
    destruct (Nat.ltb_spec a (mr - 1)) as [Hlt|Hge]; [|lia].
    rewrite (IH n (S a)); [|cbn; lia|lia|lia| |].
    + replace (S a + k)%nat with (a + S k)%nat by lia.
      cbn [asleep called slept logged]. rewrite delays_cons, <- app_assoc.
      reflexivity.
    + intros i Hi. apply Hfail. lia.
    + by replace (S a + k)%nat with (a + S k)%nat by lia.
Qed.

(** *** Results about [generate_with_retry] *)

Lemma generate_with_retry_slept (func : nat → Outcome V Exn) :
  slept (generate_with_retry func).2
  = delays retry_delay 0 (leading_failures func 0 (max_retries - 1)).
Proof.
  unfold generate_with_retry.
  by rewrite (retry_loop_slept max_retries retry_delay func max_retries 0 start).
Qed.

(** C3 (as the code has it). If the call fails with a rate-limit error
    exactly [k] times, [k < max_retries], and then returns,
    [generate_with_retry] returns that value after [k + 1] invocations; if
    it fails that way [max_retries] times, the last rate-limit error escapes
    (it is re-raised, not swallowed) after exactly [max_retries]
    invocations.  Any other failure is not retried, whatever its class: an
    [APIError] or another exception that follows [k < max_retries]
    rate-limit failures escapes at once, after [k + 1] invocations. *)
Theorem generate_with_retry_attempts (func : nat → Outcome V Exn) :
  (∀ k v, (k < max_retries)%nat → fails_transiently func k →
          func k = Returns v →
          (generate_with_retry func).1 = Returned v ∧
          calls (generate_with_retry func).2 = (k + 1)%nat) ∧
  (fails_transiently func max_retries →
   ∃ e, func (max_retries - 1)%nat = Raises (RateLimitError e) ∧
        (generate_with_retry func).1 = Escaped (RateLimitError e) ∧
        calls (generate_with_retry func).2 = max_retries) ∧
  (∀ k r, (k < max_retries)%nat → fails_transiently func k →
          func k = Raises r → (∀ e, r ≠ RateLimitError e) →
          (generate_with_retry func).1 = Escaped r ∧
          calls (generate_with_retry func).2 = (k + 1)%nat).
Proof.
  unfold generate_with_retry. split; [|split].
  - intros k v Hk Hfail Hok.
    apply (retry_loop_success max_retries retry_delay func v k max_retries 0 start);
      [reflexivity|lia|lia| |exact Hok].
    intros i Hi. apply Hfail. lia.
  - intros Hfail.
    apply (retry_loop_exhausted max_retries retry_delay func max_retries 0 start);
      [reflexivity|unfold max_retries; lia|lia|].
    intros i Hi. apply Hfail. lia.
  - intros k r Hk Hfail Hr Hother.
    rewrite (retry_loop_first_outcome max_retries retry_delay func k max_retries 0 start);
      [|reflexivity|lia|lia| |].
    + cbn [Nat.add]. rewrite Hr. cbn. split; [done|lia].
    + intros i Hi. apply Hfail. lia.
    + cbn [Nat.add]. rewrite Hr. intros e He. by destruct (Hother e); injection He.
Qed.

(** C4 (as the code has it). The wait after the failed attempt number
    [attempt] (counted from 0) exists exactly when that attempt and all
    earlier ones failed with a rate-limit error and it is not the last
    attempt, and it then equals [retry_delay * 2 ** attempt] with
    [retry_delay = 1]: no cap and no jitter term. *)
Theorem generate_with_retry_waits (func : nat → Outcome V Exn) (attempt : nat) (wait : Z) :
  slept (generate_with_retry func).2 !! attempt = Some wait ↔
  (attempt < max_retries - 1)%nat ∧
  fails_transiently func (S attempt) ∧
  wait = retry_delay * 2 ^ Z.of_nat attempt.
Proof.
  rewrite generate_with_retry_slept, delays_lookup, leading_failures_lt.
  unfold fails_transiently. split.
  - intros [[Hlt Hall] ->]. repeat split; [exact Hlt|].
    intros i Hi. apply Hall. lia.
  - intros (Hlt & Hall & ->). repeat split; [exact Hlt|].
    intros j Hj. apply Hall. lia.
Qed.

End Wrapper.

Lemma twice_limited_fails : fails_transiently twice_limited 2.
Proof.
  intros i Hi. exists "429". unfold twice_limited.
  destruct (Nat.ltb_spec i 2); [reflexivity|lia].
Qed.

Lemma generate_with_retry_attempts_witness :
  (generate_with_retry twice_limited).1 = Returned 7 ∧
  calls (generate_with_retry twice_limited).2 = 3%nat.
Proof.
  apply (proj1 (generate_with_retry_attempts twice_limited) 2%nat 7).
  - unfold max_retries. lia.
  - exact twice_limited_fails.
  - reflexivity.
Defined.

(** C3 (as stated) fails: a 500 answer is a retryable failure for the
    specification, but the wrapper does not retry the [APIError] it is
    raised as.  After one such failure the call would succeed; the run has
    ended with the error after a single attempt. *)
Lemma attempts_as_stated_fails : ¬ @attempts_as_stated Z string.
Proof.
  intros H.
  destruct (H answered_5xx once_unavailable) as [Hsuccess _].
  destruct (Hsuccess 1%nat 7) as [Hres _].
  - unfold max_retries. lia.
  - intros i Hi. exists (APIError "500 Internal Server Error").
    by destruct i; [|lia].
  - reflexivity.
  - discriminate Hres.
Qed.

Example once_unavailable_run :
  generate_with_retry once_unavailable
  = (Escaped (APIError "500 Internal Server Error"),
     {| calls := 1; slept := [];
        logged := ["500 Internal Server Error"] |}).
Proof. reflexivity. Qed.

Example always_disconnected_run :
  generate_with_retry always_disconnected
  = (Escaped (OtherException "Connection reset by peer"),
     {| calls := 1; slept := []; logged := [] |}).
Proof. reflexivity. Qed.

Example always_limited_run :
  generate_with_retry always_limited
  = (Escaped (RateLimitError "429"),
     {| calls := 3; slept := [1; 2]; logged := [] |}).
Proof. reflexivity. Qed.

(** C4 (as stated) fails: under a cap of one second the second wait of an
    always rate-limited call is two seconds, more than the capped backoff
    plus the largest jitter; and no wait of any run differs from the bare
    exponential, so no jitter term is ever there. *)
Lemma waits_as_stated_fails :
  ¬ @waits_as_stated Z string ∧ ¬ @jitter_as_stated Z string.
Proof.
  split.
  - intros H.
    destruct (H 1 always_limited 1%nat 2 ltac:(lia) eq_refl) as (j & Hj & Hw).
    unfold spec_backoff, retry_delay in *.
    change (Z.min 1 (1 * 2 ^ Z.of_nat 1)) with 1 in *. lia.
  - intros (func & attempt & wait & Hwait & Hne).
    rewrite generate_with_retry_slept, delays_lookup in Hwait.
    by destruct Hwait as [_ ->].
Qed.

Lemma generate_with_retry_waits_witness :
  slept (generate_with_retry always_limited).2 !! 1%nat = Some 2.
Proof.
  apply (proj2 (generate_with_retry_waits always_limited 1 2)).
  split; [unfold max_retries; lia|]. split; [|reflexivity].
  intros i _. by exists "429".
Defined.

End RetryFacts.

(** ** [APIQueue] *)

Module APIQueueFacts.
Import APIQueue.

Section Queue.
Context {Req : Type}.

(** *** Counting the calls in flight *)


Lemma calling_insert_finished (l : list (TaskPhase Req)) (i : nat) :
  l !! i = Some Created → calling (<[i := Finished]> l) = calling l.
Proof.
  revert i. induction l as [|t l IH]; intros i Hi; [done|].
  destruct i as [|i]; cbn in *.
  - by simplify_eq.
  - by rewrite IH.
Qed.





(** Replacing the phase of one task changes the calls in flight by what
    the two phases contribute. *)
Lemma calls_insert (l : list (TaskPhase Req)) (i : nat) (t t' : TaskPhase Req) :
  l !! i = Some t →
  omap call_of (<[i := t']> l) ++ option_list (call_of t)
  ≡ₚ omap call_of l ++ option_list (call_of t').
Proof.
  revert i. induction l as [|t0 l IH]; intros i Hi; [done|].
  destruct i as [|i]; cbn in Hi.
  - simplify_eq. cbn [insert list_insert omap list_omap].
    destruct (call_of t) as [r|], (call_of t') as [r'|]; cbn;
      rewrite ?app_nil_r, <- ?Permutation_cons_append; try done.
    apply perm_swap.
  - specialize (IH i Hi).
    change (<[S i:=t']> (t0 :: l)) with (t0 :: <[i:=t']> l).
    cbn [omap list_omap]. destruct (call_of t0) as [r0|]; cbn; [|done].
    by rewrite IH.
Qed.


(** *** Admission *)




(** Requests added while the first task is calling stay queued, in order. *)
Lemma run_adds_while_calling (rs : list Req) : ∀ (q : State Req),
  processing q = true →
  run (add_request <$> rs) q
  = Some {| queue := queue q ++ rs; rate_limit := rate_limit q;
            processing := true; tasks := tasks q; logged := logged q |}.
Proof.
  induction rs as [|r rs IH]; intros q Hp; cbn.
  - rewrite app_nil_r. destruct q; cbn in *. by subst.
  - rewrite Hp. rewrite IH by done. cbn. by rewrite <- app_assoc.
Qed.

(** *** Waiting *)



End Queue.






(** Three requests added before any task runs: three tasks, and three
    calls in flight under [rate_limit = 2]. *)
Example three_requests_back_to_back :
  run [add_request 1; add_request 2; add_request 3;
       task_runs 0; task_runs 1; task_runs 2] (init 2)
  = Some {| queue := []; rate_limit := 2; processing := true;
            tasks := [Calling 1; Calling 2; Calling 3]; logged := [] |}.
Proof. reflexivity. Qed.

(** Two of the three added before the first task runs: two calls in
    flight and one request waiting. *)
Example two_requests_then_a_third :
  run [add_request 1; add_request 2; task_runs 1; add_request 3; task_runs 0]
      (init 2)
  = Some {| queue := [3]; rate_limit := 2; processing := true;
            tasks := [Calling 2; Calling 1]; logged := [] |}.
Proof. reflexivity. Qed.

End APIQueueFacts.

(** ** Status values and failure reports *)

Module StatusFacts.
Import Http generationService StatusReport.

Import GenerationProgressTracker BookCreatePage.

Lemma truthy_error_spec (error : option string) :
  truthy_error error = true ↔ ∃ e, error = Some e ∧ e ≠ "".
Proof.
  unfold truthy_error, Js.truthy_string. destruct error as [e|].
  - destruct (decide (e = "")) as [->|Hne]; split.
    + discriminate.
    + intros (e' & [= <-] & Hne). contradiction.
    + eauto.
    + reflexivity.
  - split; [discriminate|]. intros (e & [=] & _).
Qed.

(** The tracker shows an error message exactly for a failed status with a
    non-empty error, and then shows that string. *)
Lemma renderContent_error (p : Props) (e : string) :
  renderContent p = ErrorMessage e ↔
  props_status p = failed ∧ props_error p = Some e ∧ e ≠ "".
Proof.
  unfold renderContent. split.
  - destruct (bool_decide (props_status p = failed)) eqn:Hst; cbn.
    + apply bool_decide_eq_true in Hst.
      destruct (truthy_error (props_error p)) eqn:Herr.
      * apply truthy_error_spec in Herr as (e' & He' & Hne).
        rewrite He'. cbn. intros [= <-]. done.
      * rewrite Hst. cbn. discriminate.
    + destruct (decide (props_status p = completed)); discriminate.
  - intros (Hst & He & Hne). rewrite Hst, He. cbn.
    rewrite (JsFacts.truthy_string_nonempty e Hne). reflexivity.
Qed.

(** *** The changes of status along a run *)








(** A book generated twice on BookCreatePage. *)
Example generated_twice :
  transitions
    (create_page_statuses
       (default []
          (BookCreatePageView.page_run
             [BookCreatePageView.GenerateBook (inr "book-1");
              BookCreatePageView.BackToSettings;
              BookCreatePageView.GenerateBook (inl apiHelpers.CaughtOther)]
             initial_state)))
  = [(idle, preparing); (preparing, completed); (completed, preparing);
     (preparing, failed)].
Proof. reflexivity. Qed.

(** A run on BookGenerationPage, then a failed creation of the book when
    it is saved on a route without [id], and a second run. *)
Example generated_saved_generated :
  transitions
    (generation_page_statuses (Some "7")
       (default []
          (BookGenerationPage.page_run
             [BookGenerationPage.BookFetched "book-7";
              BookGenerationPage.GenerateClicked;
              BookGenerationPage.TimerFired; BookGenerationPage.TimerFired;
              BookGenerationPage.TimerFired; BookGenerationPage.TimerFired;
              BookGenerationPage.RouteChanged None;
              BookGenerationPage.SaveClicked
                (inl (apiHelpers.CaughtError "Network Error"));
              BookGenerationPage.ClosePreviewClicked;
              BookGenerationPage.GenerateClicked;
              BookGenerationPage.TimerFired]
             (BookGenerationPage.initial_state (Some "7")))))
  = [(idle, generating); (generating, completed); (completed, failed);
     (failed, generating)].
Proof. reflexivity. Qed.

(** *** Failure reports *)



(** A thrown value that is no [Error], and an [Error] without a message,
    on BookCreatePage. *)
Example thrown_string_reported :
  generationProgress
    <$> last (handleStartGeneration (Book:=unit) (inl apiHelpers.CaughtOther)
                initial_state)
  = Some (progress_literal failed "Generation failed" 0
            (Some "Unknown error occurred")).
Proof. reflexivity. Qed.

Example empty_message_rendered :
  renderContent (mkProps failed "Generation failed" 0 (Some "") None)
  = ProgressView 0 (Some "Generation failed") NoFooter.
Proof. reflexivity. Qed.

End StatusFacts.

(** ** The Book Pipeline *)

Module PipelineFacts.
Import BookPipeline.

Section Pipeline.
Context {Payload : Type}.

(** *** The invariant *)

Lemma create_wf (i : string) (sts : list string) : NoDup sts → wf (create (Payload:=Payload) i sts).
Proof.
  intros Hnd. split; cbn.
  - exact Hnd.
  - lia.
  - intros name. rewrite lookup_empty. split.
    + by intros [? ?].
    + intros H. by apply elem_of_nil in H.
  - discriminate.
Qed.

Lemma take_S_lookup (l : list string) (i : nat) (x : string) :
  l !! i = Some x → take (S i) l = take i l ++ [x].
Proof. intros H. by apply take_S_r. Qed.

Lemma step_wf (e : Event Payload) (p p' : Pipeline Payload) :
  wf p → step e p = Some p' → wf p'.
Proof.
  intros [Hnd Hidx Hout Hfl] Hstep. destruct e; cbn in Hstep.
  - destruct (decide (status (job p) = Pending)); simplify_eq.
    split; cbn; try done.
  - destruct (decide (status (job p) = Running)) as [Hrun|]; [|done].
    destruct (inFlight p) eqn:Hin; [done|].
    destruct (cancelRequested p); [simplify_eq; split; cbn; done|].
    destruct (stages (job p) !! currentStageIndex (job p)) as [name|] eqn:Hname.
    + simplify_eq; split; cbn; try done.
      intros _. split; [done|]. by apply lookup_lt_Some in Hname.
    + simplify_eq. split; cbn; done.
  - destruct (inFlight p) eqn:Hin; [|done].
    destruct (stages (job p) !! currentStageIndex (job p)) as [name|] eqn:Hname;
      [|done].
    simplify_eq. pose proof (lookup_lt_Some _ _ _ Hname) as Hlt.
    destruct r as [output|cause]; [|by destruct (cancelRequested p); split; cbn].
    split; cbn; try done.
    intros n. rewrite (take_S_lookup _ _ _ Hname), elem_of_app, list_elem_of_singleton.
    rewrite lookup_insert_is_Some, Hout.
    split.
    + intros [->|[_ H]]; [by right|by left].
    + intros [H| ->]; [|by left].
      destruct (decide (name = n)) as [->|Hne]; [by left|by right].
  - simplify_eq. split; cbn; done.
  - destruct (decide (status (job p) = Failed)) as [Hf|]; [|done].
    simplify_eq. split; cbn; try done.
Qed.

Lemma run_wf (evs : list (Event Payload)) : ∀ p p', wf p → run evs p = Some p' → wf p'.
Proof.
  induction evs as [|e evs IH]; intros p p' Hwf Hrun; cbn in Hrun.
  - by simplify_eq.
  - destruct (step e p) as [p1|] eqn:Hstep; [|done].
    eapply IH; [|exact Hrun]. by eapply step_wf.
Qed.

Lemma reachable_wf (p : Pipeline Payload) : reachable p → wf p.
Proof.
  intros (i & sts & evs & Hnd & Hrun).
  eapply run_wf; [|exact Hrun]. by apply create_wf.
Qed.

(** *** What a step leaves alone *)
Lemma step_frame (e : Event Payload) (p p' : Pipeline Payload) :
  wf p → step e p = Some p' →
  stages (job p') = stages (job p) ∧
  currentStageIndex (job p) ≤ currentStageIndex (job p') ∧
  stageOutputs (job p) ⊆ stageOutputs (job p') ∧
  ((invocations p' = invocations p ∧
    (inFlight p = false →
       inFlight p' = false ∧
       currentStageIndex (job p') = currentStageIndex (job p))) ∨
   (inFlight p = false ∧
    ∃ name, stages (job p) !! currentStageIndex (job p) = Some name ∧
            invocations p' = invocations p ++ [name])).
Proof.
  intros [Hnd Hidx Hout Hfl] Hstep. destruct e; cbn in Hstep.
  - destruct (decide (status (job p) = Pending)); simplify_eq. cbn.
    repeat split; try done. left. done.
  - destruct (decide (status (job p) = Running)) as [Hrun|]; [|done].
    destruct (inFlight p) eqn:Hin; [done|].
    destruct (cancelRequested p).
    { simplify_eq. cbn. repeat split; try done. left. done. }
    destruct (stages (job p) !! currentStageIndex (job p)) as [name|] eqn:Hname.
    + simplify_eq; cbn; repeat split; try done.
      right. split; [done|]. by exists name.
    + simplify_eq. cbn. repeat split; try done. left. done.
  - destruct (inFlight p) eqn:Hin; [|done].
    destruct (stages (job p) !! currentStageIndex (job p)) as [name|] eqn:Hname;
      [|done].
    simplify_eq. destruct r as [output|cause];
      [|destruct (cancelRequested p)]; cbn; repeat split; try done.
    + lia.
    + apply insert_subseteq. apply eq_None_not_Some. rewrite Hout.
      intros Hin'. apply elem_of_take in Hin' as (i & Hi & Hlt).
      pose proof (NoDup_lookup _ _ _ _ Hnd Hi Hname). lia.
    + left. done.
    + left. done.
    + left. done.
  - simplify_eq. cbn. repeat split; try done. left. done.
  - destruct (decide (status (job p) = Failed)) as [Hf|]; [|done].
    simplify_eq. cbn. repeat split; try done. left. done.
Qed.

Lemma run_frame (evs : list (Event Payload)) : ∀ p p',
  wf p → run evs p = Some p' →
  stages (job p') = stages (job p) ∧
  currentStageIndex (job p) ≤ currentStageIndex (job p') ∧
  stageOutputs (job p) ⊆ stageOutputs (job p') ∧
  ∃ new, invocations p' = invocations p ++ new ∧
         Forall (at_or_after p) new ∧
         (inFlight p = false →
            head new = None ∨
            head new = stages (job p) !! currentStageIndex (job p)).
Proof.
  induction evs as [|e evs IH]; intros p p' Hwf Hrun; cbn in Hrun.
  - simplify_eq. repeat split; try done. exists []. rewrite app_nil_r.
    repeat split; [constructor|]. by left.
  - destruct (step e p) as [p1|] eqn:Hstep; [|done].
    pose proof (step_wf _ _ _ Hwf Hstep) as Hwf1.
    destruct (step_frame _ _ _ Hwf Hstep) as (Hst1 & Hle1 & Hsub1 & Hinv1).
    destruct (IH _ _ Hwf1 Hrun) as (Hst & Hle & Hsub & new & Hinv & Hall & Hhead).
    assert (Forall (at_or_after p) new) as Hall'.
    { eapply Forall_impl; [exact Hall|]. intros n (i & Hi & Hn).
      exists i. split; [lia|]. by rewrite <- Hst1. }
    repeat split.
    + by rewrite Hst.
    + lia.
    + by transitivity (stageOutputs (job p1)).
    + destruct Hinv1 as [[Heq Hkeep]|(Hin & name & Hname & Heq)].
      * exists new. rewrite Hinv, Heq. repeat split; [done|].
        intros Hin. destruct (Hkeep Hin) as [Hin1 Hidx1].
        destruct (Hhead Hin1) as [H|H]; [by left|right].
        by rewrite H, Hst1, Hidx1.
      * exists (name :: new). rewrite Hinv, Heq, <- app_assoc. cbn.
        repeat split.
        -- constructor; [|done]. exists (currentStageIndex (job p)). done.
        -- intros _. right. done.
Qed.

(** A job in a terminal state stays as it is until it is resumed. *)
Lemma terminal_stable (evs : list (Event Payload)) : ∀ p p',
  wf p → terminal (status (job p)) = true → Resume ∉ evs →
  run evs p = Some p' →
  job p' = job p ∧ invocations p' = invocations p.
Proof.
  induction evs as [|e evs IH]; intros p p' Hwf Hterm Hres Hrun; cbn in Hrun.
  - by simplify_eq.
  - apply not_elem_of_cons in Hres as [Hne Hres].
    destruct (step e p) as [p1|] eqn:Hstep; [|done].
    assert (job p1 = job p ∧ invocations p1 = invocations p) as [Hj Hi].
    { destruct Hwf as [_ _ _ Hfl]. destruct e; cbn in Hstep.
      - destruct (decide (status (job p) = Pending)) as [Hp|]; [|done].
        rewrite Hp in Hterm. done.
      - destruct (decide (status (job p) = Running)) as [Hp|]; [|done].
        rewrite Hp in Hterm. done.
      - destruct (inFlight p) eqn:Hin; [|done].
        destruct (Hfl eq_refl) as [Hp _]. rewrite Hp in Hterm. done.
      - by simplify_eq.
      - done. }
    destruct (IH p1 p') as [Hj' Hi']; try done.
    + by eapply step_wf.
    + by rewrite Hj.
    + split; congruence.
Qed.



(** *** Resuming and cancelling *)

(** C2. When a Failed job is resumed, the Stage Executor is next invoked
    on the stage at [currentStageIndex] (if it is invoked at all), it is
    invoked zero times on any stage whose name is already in
    [stageOutputs], and every prior stage output is still there,
    unchanged, in whatever state the resumed run reaches. *)
Theorem resume_reuses_outputs (p p' : Pipeline Payload) (evs : list (Event Payload)) :
  reachable p → status (job p) = Failed →
  run (Resume :: evs) p = Some p' →
  (∀ name output, stageOutputs (job p) !! name = Some output →
                  stageOutputs (job p') !! name = Some output) ∧
  ∃ new, invocations p' = invocations p ++ new ∧
         (head new = None ∨
          head new = stages (job p) !! currentStageIndex (job p)) ∧
         (∀ name, is_Some (stageOutputs (job p) !! name) → name ∉ new).
Proof.
  intros Hreach Hfailed Hrun. pose proof (reachable_wf _ Hreach) as Hwf.
  cbn in Hrun. destruct (decide (status (job p) = Failed)); [|done].
  match type of Hrun with run evs ?q = _ => set (p1 := q) in * end.
  assert (wf p1) as Hwf1.
  { apply (step_wf Resume p); [done|]. cbn.
    by destruct (decide (status (job p) = Failed)). }
  destruct (run_frame evs p1 p' Hwf1 Hrun)
    as (_ & _ & Hsub & new & Hinv & Hall & Hhead).
  split.
  - intros name output Hname. by eapply lookup_weaken.
  - exists new. repeat split; [exact Hinv|by apply Hhead|].
    intros name Hsome Hin.
    rewrite Forall_forall in Hall. destruct (Hall name Hin) as (i & Hi & Hname).
    cbn in Hi, Hname.
    apply (wf_outputs p Hwf) in Hsome.
    apply elem_of_take in Hsome as (j & Hj & Hlt).
    pose proof (NoDup_lookup _ _ _ _ (wf_nodup p Hwf) Hj Hname). lia.
Qed.


End Pipeline.

(** *** Examples *)

Lemma pipeline_shape_NoDup : NoDup pipeline_shape.
Proof. apply (bool_decide_unpack _). vm_compute. reflexivity. Qed.

Lemma failed_at_images_reachable : reachable failed_at_images.
Proof.
  exists "book-1", pipeline_shape,
    [Start; Iterate; StageReturned (StageOk "asset-17");
     Iterate; StageReturned (StageError "quota exceeded")].
  split; [exact pipeline_shape_NoDup|reflexivity].
Qed.

Lemma resume_reuses_outputs_witness :
  (∀ name output,
     stageOutputs (job failed_at_images) !! name = Some output →
     stageOutputs (job resumed_at_export) !! name = Some output) ∧
  ∃ new, invocations resumed_at_export = invocations failed_at_images ++ new ∧
         (head new = None ∨
          head new = stages (job failed_at_images)
                       !! currentStageIndex (job failed_at_images)) ∧
         (∀ name, is_Some (stageOutputs (job failed_at_images) !! name) →
                  name ∉ new).
Proof.
  apply (resume_reuses_outputs failed_at_images resumed_at_export resumed_events).
  - exact failed_at_images_reachable.
  - reflexivity.
  - reflexivity.
Defined.



(** The images stage succeeds after the request: its output is written
    too, and the job is Cancelled at the next iteration, before the layout
    stage. *)
Example cancelled_after_images :
  run [RequestCancel; StageReturned (StageOk "asset-22"); Iterate] images_in_flight
  = Some {| job := {| id := "book-2"; stages := pipeline_shape;
                      currentStageIndex := 2;
                      stageOutputs := <[ "images" := "asset-22" ]>
                                        {[ "text" := "asset-21" ]};
                      status := Cancelled; lastError := None |};
            inFlight := false; cancelRequested := true;
            invocations := ["text"; "images"] |}.
Proof. reflexivity. Qed.

End PipelineFacts.

(** ** The status of a batch *)

Module BatchFacts.
Import Http batchService BatchStatusReport.

(** The aggregate of the specification is one of its three names. *)
Lemma spec_aggregateStatus_name (per : list BatchStatus) :
  spec_aggregateStatus per ∈ spec_aggregate_names.
Proof.
  unfold spec_aggregateStatus, spec_aggregate_names.
  repeat case_match; set_solver.
Qed.



Example batch_of_three_aggregate :
  spec_aggregateStatus (constituents (batch_of_three failed)) = "partiallyfailed".
Proof. reflexivity. Qed.

End BatchFacts.

(** ** Further properties of the code *)

(** ** [generate_with_retry]: what every run does *)

Module RetryRunFacts.
Import Retry.

Open Scope Z_scope.

Section Wrapper.
Context {V Exn : Type}.

(** A run that still has an attempt to make ends with a value or an
    exception, has invoked [func] once more than it has slept, and has not
    invoked it more than [max_retries] times. *)
Lemma retry_loop_progress (mr : nat) (rd : Z) (func : nat → Outcome V Exn) :
  ∀ n a st, calls st = a → length (slept st) = a → (0 < n)%nat → (a + n = mr)%nat →
    (retry_loop mr rd func (seq a n) st).1 ≠ ReturnedNone ∧
    calls (retry_loop mr rd func (seq a n) st).2
    = S (length (slept (retry_loop mr rd func (seq a n) st).2)) ∧
    (calls (retry_loop mr rd func (seq a n) st).2 ≤ mr)%nat.
Proof.
  induction n as [|n IH]; intros a st Hc Hs Hpos Hn; [lia|].
  cbn [seq retry_loop]. rewrite Hc.
  destruct (func a) as [v|[e|e|e]].
  2:{ destruct (Nat.ltb_spec a (mr - 1)) as [Hlt|Hge].
      - apply IH; cbn; rewrite ?length_app; cbn; lia.
      - cbn. split; [done|]. lia. }
  all: cbn; split; [done|]; lia.
Qed.

(** Only an [APIError] is logged, once, as the run ends with it. *)
Lemma retry_loop_logged (mr : nat) (rd : Z) (func : nat → Outcome V Exn) :
  ∀ attempts st,
    logged (retry_loop mr rd func attempts st).2
    = logged st ++ match (retry_loop mr rd func attempts st).1 with
                   | Escaped (APIError e) => [e]
                   | _ => []
                   end.
Proof.
  induction attempts as [|attempt rest IH]; intros st; cbn [retry_loop].
  - cbn. by rewrite app_nil_r.
  - destruct (func (calls st)) as [v|[e|e|e]].
    2:{ destruct (attempt <? mr - 1)%nat; [|cbn; by rewrite app_nil_r].
        by rewrite IH. }
    all: cbn; by rewrite ?app_nil_r.
Qed.

(** X1. [generate_with_retry] never falls off its loop: it ends with the
    call's value or with an exception, never by returning [None]; and it
    has then invoked [func] exactly once more than it has slept. *)
Theorem generate_with_retry_never_falls_through (func : nat → Outcome V Exn) :
  (generate_with_retry func).1 ≠ ReturnedNone ∧
  calls (generate_with_retry func).2
  = S (length (slept (generate_with_retry func).2)).
Proof.
  unfold generate_with_retry.
  destruct (retry_loop_progress max_retries retry_delay func max_retries 0 start)
    as (Hres & Hcalls & _); try done.
  unfold max_retries. lia.
Qed.

(** X2. Whatever [func] does, a run invokes it at least once and at most
    [max_retries] = 3 times and sleeps for at most 3 seconds in total. *)
Theorem generate_with_retry_bounded (func : nat → Outcome V Exn) :
  (1 ≤ calls (generate_with_retry func).2 ≤ max_retries)%nat ∧
  0 ≤ foldr Z.add 0 (slept (generate_with_retry func).2) ≤ 3.
Proof.
  split.
  - unfold generate_with_retry.
    destruct (retry_loop_progress max_retries retry_delay func max_retries 0 start)
      as (_ & Hcalls & Hle); try done; [unfold max_retries; lia|].
    rewrite Hcalls in *. lia.
  - rewrite RetryFacts.generate_with_retry_slept.
    pose proof (RetryFacts.leading_failures_le func (max_retries - 1) 0) as Hle.
    change (max_retries - 1)%nat with 2%nat in *.
    destruct (leading_failures func 0 2) as [|[|[|k]]]; [..|lia];
      unfold delays, retry_delay; simpl; lia.
Qed.

(** X3. The first outcome of [func] that is not a rate-limit error, if it
    comes within [max_retries] attempts, ends the run at once: a value is
    returned, an [APIError] is logged once and re-raised, any other
    exception escapes unlogged; none of them is retried, and the sleeps
    before it are those of the rate-limit failures. *)
Theorem generate_with_retry_first_outcome (func : nat → Outcome V Exn) (k : nat) :
  (k < max_retries)%nat →
  fails_transiently func k →
  (∀ e, func k ≠ Raises (RateLimitError e)) →
  generate_with_retry func
  = (match func k with
     | Returns v => Returned v
     | Raises r => Escaped r
     end,
     {| calls := S k;
        slept := delays retry_delay 0 k;
        logged := match func k with
                  | Raises (APIError e) => [e]
                  | _ => []
                  end |}).
Proof.
  intros Hk Hfail Hother. unfold generate_with_retry.
  rewrite (RetryFacts.retry_loop_first_outcome max_retries retry_delay func k
             max_retries 0 start);
    try done; try lia.
  intros i Hi. apply Hfail. lia.
Qed.

(** X4. A run logs exactly when it ends with an [APIError], and then logs
    that error once; rate-limit errors, also the last one that escapes, and
    other exceptions are never logged. *)
Theorem generate_with_retry_logged (func : nat → Outcome V Exn) :
  logged (generate_with_retry func).2
  = match (generate_with_retry func).1 with
    | Escaped (APIError e) => [e]
    | _ => []
    end.
Proof. unfold generate_with_retry. by rewrite retry_loop_logged. Qed.

End Wrapper.

Lemma generate_with_retry_first_outcome_witness :
  generate_with_retry
    (λ i, if (i <? 1)%nat then Raises (RateLimitError "429")
          else Raises (V:=Z) (APIError "500"))
  = (Escaped (APIError "500"),
     {| calls := 2; slept := [1]; logged := ["500"] |}).
Proof.
  apply (generate_with_retry_first_outcome
           (λ i, if (i <? 1)%nat then Raises (RateLimitError "429")
                 else Raises (V:=Z) (APIError "500")) 1).
  - unfold max_retries. lia.
  - intros i Hi. exists "429". by destruct i; [|lia].
  - intros e. discriminate.
Defined.

End RetryRunFacts.

(** ** [APIQueue]: whole schedules *)

Module APIQueueRunFacts.
Import APIQueue APIQueueSchedules.

Section Queue.
Context {Req : Type}.

Lemma run_app (evs1 evs2 : list (Event Req)) : ∀ q,
  run (evs1 ++ evs2) q = run evs1 q ≫= run evs2.
Proof.
  induction evs1 as [|e evs1 IH]; intros q; cbn; [done|].
  destruct (step e q) as [q'|]; [apply IH|done].
Qed.

(** The loop test takes the head of the queue, if there is one, and the
    task calls it. *)
Lemma loop_head_takes (i : nat) (t : TaskPhase Req) (q : State Req) :
  tasks q !! i = Some t →
  match tasks (loop_head i q) !! i with
  | Some (Calling r) => [r]
  | _ => []
  end ++ queue (loop_head i q) = queue q ∧
  calls_in_flight (loop_head i q) ++ option_list (call_of t)
  ≡ₚ calls_in_flight q ++ match tasks (loop_head i q) !! i with
                          | Some (Calling r) => [r]
                          | _ => []
                          end.
Proof.
  intros Hi. pose proof (lookup_lt_Some _ _ _ Hi) as Hlt.
  unfold loop_head, calls_in_flight. destruct (queue q) as [|r rest]; cbn.
  - rewrite list_lookup_insert_eq by done. split; [done|].
    apply (APIQueueFacts.calls_insert (tasks q) i t Finished Hi).
  - rewrite list_lookup_insert_eq by done. split; [done|].
    apply (APIQueueFacts.calls_insert (tasks q) i t (Calling r) Hi).
Qed.

(** One step: what it takes from the queue is the head, what it adds goes
    to the end, and the calls it starts and ends account for the change of
    the calls in flight. *)
Lemma conservation_step (e : Event Req) (q q' : State Req) :
  step e q = Some q' →
  starts e q ++ queue q' = queue q ++ added [e] ∧
  calls_in_flight q' ++ finishes e q ≡ₚ calls_in_flight q ++ starts e q.
Proof.
  intros Hstep. unfold starts, finishes.
  destruct e as [r|i|i raised|i|i]; rewrite ?Hstep; cbn in Hstep.
  - simplify_eq. unfold calls_in_flight. cbn. rewrite !app_nil_r. split; [done|].
    destruct (processing q); [done|]. rewrite omap_app. cbn. by rewrite app_nil_r.
  - destruct (tasks q !! i) as [[]|] eqn:Hi; try done. simplify_eq.
    cbn [added]. rewrite !app_nil_r.
    apply (loop_head_takes i Created
             {| queue := queue q; rate_limit := rate_limit q; processing := true;
                tasks := tasks q; logged := logged q |}) in Hi as [Hq Hc].
    cbn in Hq, Hc. rewrite app_nil_r in Hc. done.
  - destruct (tasks q !! i) as [[| r | | |]|] eqn:Hi; try done. simplify_eq.
    unfold calls_in_flight. cbn. rewrite !app_nil_r. split; [done|].
    pose proof (APIQueueFacts.calls_insert (tasks q) i (Calling r)
                  (if decide (rate_limit q = 0%Z) then Crashed else Sleeping) Hi) as H.
    destruct (decide (rate_limit q = 0%Z)); cbn in H; by rewrite app_nil_r in H.
  - destruct (tasks q !! i) as [[]|] eqn:Hi; try done. simplify_eq.
    cbn [added]. rewrite !app_nil_r.
    apply (loop_head_takes i Sleeping q) in Hi as [Hq Hc].
    cbn in Hc. rewrite app_nil_r in Hc. done.
  - destruct (tasks q !! i) as [[| r | | |]|] eqn:Hi; try done; simplify_eq;
      unfold calls_in_flight; cbn; rewrite !app_nil_r; (split; [done|]).
    + pose proof (APIQueueFacts.calls_insert (tasks q) i Created Crashed Hi) as H.
      cbn in H. by rewrite !app_nil_r in H.
    + pose proof (APIQueueFacts.calls_insert (tasks q) i (Calling r) Crashed Hi) as H.
      cbn in H. by rewrite !app_nil_r in H.
    + pose proof (APIQueueFacts.calls_insert (tasks q) i Sleeping Crashed Hi) as H.
      cbn in H. by rewrite !app_nil_r in H.
Qed.

Lemma added_cons (e : Event Req) (evs : list (Event Req)) :
  added (e :: evs) = added [e] ++ added evs.
Proof. by destruct e. Qed.

Lemma conservation_run (evs : list (Event Req)) : ∀ q q',
  run evs q = Some q' →
  started evs q ++ queue q' = queue q ++ added evs ∧
  calls_in_flight q' ++ ended evs q ≡ₚ calls_in_flight q ++ started evs q.
Proof.
  induction evs as [|e evs IH]; intros q q' Hrun; cbn [run started ended] in *.
  - simplify_eq. cbn. by rewrite !app_nil_r.
  - destruct (step e q) as [q1|] eqn:Hstep; [|done].
    destruct (conservation_step _ _ _ Hstep) as [Hq1 Hc1].
    destruct (IH _ _ Hrun) as [Hq' Hc'].
    split.
    + by rewrite <- app_assoc, Hq', app_assoc, Hq1, <- app_assoc, <- added_cons.
    + transitivity ((calls_in_flight q' ++ ended evs q1) ++ finishes e q);
        [solve_Permutation|].
      rewrite Hc'.
      transitivity ((calls_in_flight q1 ++ finishes e q) ++ started evs q1);
        [solve_Permutation|].
      rewrite Hc1. by rewrite <- app_assoc.
Qed.

(** Only an [Exception] raised by a call is logged. *)
Lemma logged_run (evs : list (Event Req)) : ∀ q q',
  run evs q = Some q' → logged q' = logged q ++ raised_by evs.
Proof.
  induction evs as [|e evs IH]; intros q q' Hrun; cbn [run] in Hrun.
  - simplify_eq. cbn. by rewrite app_nil_r.
  - destruct (step e q) as [q1|] eqn:Hstep; [|done].
    rewrite (IH _ _ Hrun).
    destruct e as [r|i|i raised|i|i]; cbn in Hstep.
    + by simplify_eq.
    + destruct (tasks q !! i) as [[]|]; try done. simplify_eq.
      unfold loop_head. cbn. by destruct (queue q).
    + destruct (tasks q !! i) as [[]|]; try done. simplify_eq. cbn.
      destruct raised; cbn; [by rewrite <- app_assoc|done].
    + destruct (tasks q !! i) as [[]|]; try done. simplify_eq.
      unfold loop_head. by destruct (queue q).
    + by destruct (tasks q !! i) as [[]|]; simplify_eq.
Qed.

(** In a stalled queue the only thing that can happen is that a request is
    added, and it just joins the queue. *)
Lemma stalled_step (e : Event Req) (q q' : State Req) :
  stalled q → step e q = Some q' →
  ∃ r, e = add_request r ∧
       q' = {| queue := queue q ++ [r]; rate_limit := rate_limit q;
               processing := true; tasks := tasks q; logged := logged q |}.
Proof.
  intros [Hp Hover] Hstep.
  destruct e as [r|i|i raised|i|i]; cbn in Hstep.
  - exists r. split; [done|]. rewrite Hp in Hstep. by simplify_eq.
  - destruct (tasks q !! i) as [t|] eqn:Hi; [|done].
    pose proof (Forall_lookup_1 _ _ _ _ Hover Hi). by destruct t.
  - destruct (tasks q !! i) as [t|] eqn:Hi; [|done].
    pose proof (Forall_lookup_1 _ _ _ _ Hover Hi). by destruct t.
  - destruct (tasks q !! i) as [t|] eqn:Hi; [|done].
    pose proof (Forall_lookup_1 _ _ _ _ Hover Hi). by destruct t.
  - destruct (tasks q !! i) as [t|] eqn:Hi; [|done].
    pose proof (Forall_lookup_1 _ _ _ _ Hover Hi). by destruct t.
Qed.

Lemma stalled_run (evs : list (Event Req)) : ∀ q q',
  stalled q → run evs q = Some q' →
  ∃ rs, evs = add_request <$> rs ∧
        q' = {| queue := queue q ++ rs; rate_limit := rate_limit q;
                processing := true; tasks := tasks q; logged := logged q |}.
Proof.
  induction evs as [|e evs IH]; intros q q' Hst Hrun; cbn in Hrun.
  - simplify_eq. exists []. split; [done|]. rewrite app_nil_r.
    destruct Hst as [Hp _]. destruct q'; cbn in *. by subst.
  - destruct (step e q) as [q1|] eqn:Hstep; [|done].
    destruct (stalled_step _ _ _ Hst Hstep) as (r & -> & ->).
    apply IH in Hrun as (rs & -> & ->); [|by destruct Hst].
    exists (r :: rs). split; [done|]. cbn. by rewrite <- app_assoc.
Qed.

End Queue.

(** X5. No request is lost, called twice or overtaken: whatever the
    schedule, the requests whose calls have started, in the order the
    calls started, followed by the queue are the requests added, in the
    order they were added; and every call started is in flight or has
    ended, and no other call is. *)
Theorem api_queue_requests_conserved (Req : Type) (rate_limit : Z)
    (evs : list (Event Req)) (q : State Req) :
  run evs (init rate_limit) = Some q →
  started evs (init rate_limit) ++ queue q = added evs ∧
  calls_in_flight q ++ ended evs (init rate_limit)
  ≡ₚ started evs (init rate_limit).
Proof. intros Hrun. by destruct (conservation_run evs _ _ Hrun). Qed.

Lemma api_queue_requests_conserved_witness :
  let evs := [add_request 1; add_request 2; task_runs 1; task_runs 0;
              add_request 3; call_returns 1 (Some "boom"); task_cancelled 0;
              sleep_ends 1] in
  let q := mkState [] 2 true [Crashed; Calling 3] ["boom"] in
  started evs (init 2) ++ queue q = added evs ∧
  calls_in_flight q ++ ended evs (init 2) ≡ₚ started evs (init 2).
Proof.
  apply (api_queue_requests_conserved nat 2
           [add_request 1; add_request 2; task_runs 1; task_runs 0;
            add_request 3; call_returns 1 (Some "boom"); task_cancelled 0;
            sleep_ends 1]
           (mkState [] 2 true [Crashed; Calling 3] ["boom"])).
  reflexivity.
Defined.

(** X6. With [rate_limit = 0] the queue serves one request and then
    stalls: when the first call returns, the task dies of the division by
    zero with [processing] still set, so from then on a request can only
    be added, no task is ever created for it and none is called. *)
Theorem api_queue_zero_rate_limit_stalls (Req : Type) (r : Req)
    (raised : option string) (evs : list (Event Req)) (q : State Req) :
  run (add_request r :: task_runs 0 :: call_returns 0 raised :: evs) (init 0)
  = Some q →
  evs = add_request <$> queue q ∧
  processing q = true ∧
  tasks q = [Crashed] ∧
  in_flight q = 0.
Proof.
  cbn. intros Hrun.
  apply stalled_run in Hrun as (rs & -> & ->); [done|].
  split; [done|]. by repeat constructor.
Qed.

Lemma api_queue_zero_rate_limit_stalls_witness :
  let q := mkState [2; 3] 0 true [Crashed] [] in
  [add_request 2; add_request 3] = add_request <$> queue q ∧
  processing q = true ∧
  tasks q = [Crashed] ∧
  in_flight q = 0.
Proof.
  apply (api_queue_zero_rate_limit_stalls nat 1 None
           [add_request 2; add_request 3]
           (mkState [2; 3] 0 true [Crashed] [])).
  reflexivity.
Defined.

(** X7. What a task does when its call is over.  An [Exception] the call
    raises is logged and the task goes on as after a return: it pauses and
    then calls the head of the queue, or ends and resets [processing] when
    the queue is empty; whatever the schedule, the log holds the messages
    of those exceptions, in the order the calls raised them, and nothing
    else.  An exception that is no [Exception], such as
    [asyncio.CancelledError], is not caught: it ends the task with nothing
    logged and [processing] still set, so when the task was the only one
    the requests that wait are never called and from then on a request can
    only be added. *)
Theorem api_queue_serves_in_order :
  (∀ (Req : Type) (q : State Req) (i : nat) (r : Req) (raised : option string),
      tasks q !! i = Some (Calling r) → rate_limit q ≠ 0%Z →
      run [call_returns i raised; sleep_ends i] q
      = Some (match queue q with
              | next :: rest =>
                  {| queue := rest; rate_limit := rate_limit q;
                     processing := processing q;
                     tasks := <[i := Calling next]> (tasks q);
                     logged := logged q ++ option_list raised |}
              | [] =>
                  {| queue := []; rate_limit := rate_limit q;
                     processing := false;
                     tasks := <[i := Finished]> (tasks q);
                     logged := logged q ++ option_list raised |}
              end)) ∧
  (∀ (Req : Type) (rate_limit : Z) (evs : list (Event Req)) (q : State Req),
      run evs (init rate_limit) = Some q → logged q = raised_by evs) ∧
  (∀ (Req : Type) (rate_limit : Z) (r : Req) (rs : list Req)
     (evs : list (Event Req)) (q : State Req),
      run (add_request r :: task_runs 0 :: (add_request <$> rs)
             ++ task_cancelled 0 :: evs) (init rate_limit) = Some q →
      evs = add_request <$> drop (length rs) (queue q) ∧
      take (length rs) (queue q) = rs ∧
      processing q = true ∧
      tasks q = [Crashed] ∧
      logged q = []).
Proof.
  repeat apply conj.
  - intros Req q i r raised Hi Hrl.
    pose proof (lookup_lt_Some _ _ _ Hi) as Hlt.
    cbn [run step]. rewrite Hi. destruct (decide (rate_limit q = 0%Z)); [done|].
    cbn [tasks]. rewrite list_lookup_insert_eq by done.
    unfold loop_head. cbn [queue tasks APIQueue.rate_limit processing logged].
    destruct (queue q), raised; cbn; by rewrite ?app_nil_r, ?list_insert_insert_eq.
  - intros Req rate_limit evs q Hrun. by rewrite (logged_run evs _ _ Hrun).
  - intros Req rate_limit r rs evs q.
    cbn [run step init processing tasks queue app lookup list_lookup
         APIQueue.rate_limit logged loop_head insert list_insert].
    rewrite run_app, APIQueueFacts.run_adds_while_calling by done.
    cbn [mbind option_bind run step queue app APIQueue.rate_limit tasks logged
         processing lookup list_lookup insert list_insert].
    intros Hrun. apply stalled_run in Hrun as (rs' & -> & ->).
    + cbn. rewrite drop_app_length, take_app_length. done.
    + split; [done|]. by repeat constructor.
Qed.

Lemma api_queue_serves_in_order_witness :
  run [call_returns 1 (Some "boom"); sleep_ends 1]
      (mkState [3; 4] 60 true [Calling 1; Calling 2] ["oops"])
  = Some (mkState [4] 60 true [Calling 1; Calling 3] ["oops"; "boom"]).
Proof.
  destruct api_queue_serves_in_order as (Hnext & _ & _).
  apply (Hnext nat (mkState [3; 4] 60 true [Calling 1; Calling 2] ["oops"])
           1 2 (Some "boom")).
  - reflexivity.
  - discriminate.
Defined.

(** The only task is cancelled while it awaits its call: the two requests
    that wait are never called. *)
Example cancelled_task_stalls_queue :
  run [add_request 1; task_runs 0; add_request 2; add_request 3;
       task_cancelled 0; add_request 4] (init 60)
  = Some (mkState [2; 3; 4] 60 true [Crashed] []).
Proof. reflexivity. Qed.

End APIQueueRunFacts.

(** ** Validation *)

Module ValidationFacts.
Import validation.

(** A composed validator that accepts returns the bare [{ isValid: true }]:
    whatever else the accepting validators returned is dropped. *)
Lemma composeValidators_valid (validators : list (Value → ValidationResult))
    (value : Value) :
  isValid (composeValidators validators value) = true →
  composeValidators validators value = valid.
Proof.
  induction validators as [|v vs IH]; cbn; [done|].
  destruct (isValid (v value)) eqn:Hv; cbn; [exact IH|]. by rewrite Hv.
Qed.

Lemma composeValidators_accepts (validators : list (Value → ValidationResult))
    (value : Value) :
  isValid (composeValidators validators value) = true ↔
  Forall (λ v, isValid (v value) = true) validators.
Proof.
  induction validators as [|v vs IH]; cbn.
  - split; [constructor|done].
  - rewrite Forall_cons. destruct (isValid (v value)) eqn:Hv; cbn.
    + rewrite IH. tauto.
    + rewrite Hv. split; [done|]. by intros [? _].
Qed.

(** X8. A composed validator runs its validators in order and stops at the
    first that does not accept: it returns that validator's result
    unchanged, or the bare [{ isValid: true }] when all accept. *)
Theorem composeValidators_first_failure
    (validators : list (Value → ValidationResult)) (value : Value) :
  (Forall (λ v, isValid (v value) = true) validators ∧
   composeValidators validators value = valid) ∨
  (∃ before v after,
     validators = before ++ v :: after ∧
     Forall (λ v', isValid (v' value) = true) before ∧
     isValid (v value) = false ∧
     composeValidators validators value = v value).
Proof.
  induction validators as [|v vs IH]; cbn.
  - left. by split.
  - destruct (isValid (v value)) eqn:Hv; cbn.
    + destruct IH as [[Hall Hres]|(before & v' & after & -> & Hall & Hv' & Hres)].
      * left. split; [by constructor|done].
      * right. exists (v :: before), v', after. repeat split; try done.
        by constructor.
    + right. exists [], v, vs. by repeat split.
Qed.

(** X9. Composition is associative: composing two composed validators is
    the same validator as composing the two lists in one go. *)
Theorem composeValidators_app
    (validators1 validators2 : list (Value → ValidationResult)) (value : Value) :
  composeValidators [composeValidators validators1; composeValidators validators2] value
  = composeValidators (validators1 ++ validators2) value.
Proof.
  induction validators1 as [|v vs IH]; cbn in *.
  - destruct (isValid (composeValidators validators2 value)) eqn:Hv; cbn; [|done].
    symmetry. by apply composeValidators_valid.
  - destruct (isValid (v value)) eqn:Hv; cbn; [exact IH|].
    by rewrite Hv.
Qed.

(** *** [validateForm] *)

Lemma validateForm_fold_isValid (values : string → Value)
    (schema : list (string * (Value → ValidationResult))) : ∀ acc,
  (foldl (validateField values) acc schema).1
  = acc.1 && forallb (λ e, isValid (e.2 (values e.1))) schema.
Proof.
  induction schema as [|e schema IH]; intros acc; cbn.
  - by rewrite andb_true_r.
  - rewrite IH. unfold validateField.
    destruct (isValid (e.2 (values e.1))); cbn; [done|].
    by rewrite andb_false_r.
Qed.

Lemma validateForm_fold_accepts (values : string → Value)
    (schema : list (string * (Value → ValidationResult))) :
  forallb (λ e, isValid (e.2 (values e.1))) schema = true ↔
  Forall (λ e, isValid (e.2 (values e.1)) = true) schema.
Proof.
  induction schema as [|e schema IH]; cbn.
  - split; [constructor|done].
  - rewrite Forall_cons, andb_true_iff, IH. tauto.
Qed.

Lemma validateForm_fold_other (values : string → Value) (field : string)
    (schema : list (string * (Value → ValidationResult))) : ∀ acc,
  field ∉ schema.*1 →
  (foldl (validateField values) acc schema).2 !! field = acc.2 !! field.
Proof.
  induction schema as [|e schema IH]; intros acc Hnot; cbn; [done|].
  cbn in Hnot. apply not_elem_of_cons in Hnot as [Hne Hnot].
  rewrite IH by done. unfold validateField, assign.
  destruct (isValid (e.2 (values e.1))); cbn;
    destruct (decide (e.1 = "__proto__")); try done;
    by rewrite lookup_insert_ne.
Qed.

Lemma validateForm_fold_field (values : string → Value) (field : string)
    (validate : Value → ValidationResult)
    (schema : list (string * (Value → ValidationResult))) : ∀ acc,
  NoDup schema.*1 → (field, validate) ∈ schema → field ≠ "__proto__" →
  (foldl (validateField values) acc schema).2 !! field
  = Some (if isValid (validate (values field))
          then None else error (validate (values field))).
Proof.
  induction schema as [|e schema IH]; intros acc Hnd Hin Hne; cbn.
  - by apply elem_of_nil in Hin.
  - cbn in Hnd. apply NoDup_cons in Hnd as [Hnot Hnd].
    apply elem_of_cons in Hin as [<-|Hin].
    + rewrite validateForm_fold_other by done.
      unfold validateField, assign. cbn.
      destruct (isValid (validate (values field))); cbn;
        destruct (decide (field = "__proto__")); try done;
        by rewrite lookup_insert_eq.
    + by apply IH.
Qed.

(** X10. [validateForm] reports the form valid exactly when every
    validator of the schema accepts the value read under its field name.
    For a schema with distinct field names the errors hold, under each
    field name other than ['__proto__'], the validator's error when it does
    not accept and [undefined] when it does, and nothing under any other
    name. *)
Theorem validateForm_spec (values : string → Value)
    (schema : list (string * (Value → ValidationResult))) :
  NoDup schema.*1 →
  ((validateForm values schema).1 = true ↔
   Forall (λ e, isValid (e.2 (values e.1)) = true) schema) ∧
  (∀ field validate, (field, validate) ∈ schema → field ≠ "__proto__" →
     (validateForm values schema).2 !! field
     = Some (if isValid (validate (values field))
             then None else error (validate (values field)))) ∧
  (∀ field, field ∉ schema.*1 → (validateForm values schema).2 !! field = None).
Proof.
  intros Hnd. unfold validateForm. repeat split.
  - rewrite validateForm_fold_isValid. cbn. apply validateForm_fold_accepts.
  - rewrite validateForm_fold_isValid. cbn. apply validateForm_fold_accepts.
  - intros field validate Hin Hne. by apply validateForm_fold_field.
  - intros field Hnot. by rewrite validateForm_fold_other.
Qed.

Lemma validateForm_spec_witness :
  (validateForm (λ _, VString "ab") BookForm.validationSchema).2 !! "metadata.title"
  = Some (Some "Title must be at least 3 characters").
Proof.
  destruct (validateForm_spec (λ _, VString "ab") BookForm.validationSchema)
    as (_ & Herr & _).
  - apply (bool_decide_unpack _). vm_compute. reflexivity.
  - apply (Herr "metadata.title" BookForm.title_validator).
    + unfold BookForm.validationSchema. rewrite !elem_of_cons. tauto.
    + discriminate.
Defined.

End ValidationFacts.

(** ** The form of BookForm.tsx *)

Module BookFormFacts.
Import validation BookForm.

Lemma schema_NoDup : NoDup validationSchema.*1.
Proof. apply (bool_decide_unpack _). vm_compute. reflexivity. Qed.

(** X11. The title validator of the form accepts a string exactly when
    its [length], counted in UTF-16 code units as JavaScript does, is
    between 3 and 100; it rejects [undefined] as a missing title; and it
    accepts a function of three to a hundred parameters, which has a
    [length] too. *)
Theorem title_validator_accepts (s : string) :
  (isValid (title_validator (VString s)) = true ↔
   3 ≤ Js.utf16_length s ≤ 100) ∧
  title_validator VUndefined = invalid "Title is required" ∧
  (∀ arity, isValid (title_validator (VFunction arity)) = true ↔
            (3 ≤ arity ≤ 100)%Z).
Proof.
  split; [|split; [reflexivity|]].
  2:{ intros arity. unfold title_validator.
      rewrite ValidationFacts.composeValidators_accepts.
      rewrite !Forall_cons, Forall_nil.
      unfold required, minLength, maxLength, truthy, length_of.
      cbn [bool_decide negb orb isValid valid invalid].
      assert (bool_decide (VFunction arity = VUndefined) = false) as -> by done.
      assert (bool_decide (VFunction arity = VNull) = false) as -> by done.
      assert (bool_decide (VFunction arity = VString "") = false) as -> by done.
      cbn [orb isValid valid].
      destruct (Z.ltb_spec arity 3), (Z.ltb_spec 100 arity); cbn;
        split; try lia; try tauto; intros (_ & ? & ? & _); done. }
  unfold title_validator. rewrite ValidationFacts.composeValidators_accepts.
  rewrite !Forall_cons, Forall_nil.
  unfold required, minLength, maxLength, truthy, length_of, Js.truthy_string.
  destruct (decide (s = "")) as [->|Hne].
  - cbn. split; [by intros [? _]|lia].
  - assert (bool_decide (VString s = VString "") = false) as ->.
    { apply bool_decide_eq_false. congruence. }
    cbn [bool_decide negb orb isValid valid invalid].
    assert (bool_decide (VString s = VUndefined) = false) as -> by done.
    assert (bool_decide (VString s = VNull) = false) as -> by done.
    cbn [orb isValid valid].
    destruct (Z.ltb_spec (Z.of_nat (Js.utf16_length s)) 3),
             (Z.ltb_spec 100 (Z.of_nat (Js.utf16_length s))); cbn;
      split; try lia; try tauto; intros (_ & ? & ? & _); done.
Qed.

(** Two letters with an accent are four bytes and two code units: too
    short a title. *)
Example accented_title_too_short :
  title_validator (VString "éé")
  = invalid "Title must be at least 3 characters".
Proof. reflexivity. Qed.

(** A character outside the basic plane counts as two. *)
Example emoji_is_two_units : Js.utf16_length "📚a" = 3.
Proof. reflexivity. Qed.

(** X12. Whatever the form's values are, its validation fails: the schema
    names its fields by dotted paths, [validateForm] reads those names as
    plain properties of the values and so hands [undefined] to the
    validators of title, author and theme, each of which reports its field
    as required.  Submitting therefore never calls [onSubmit]. *)
Theorem book_form_never_valid {Metadata : Type}
    (formState : useForm.FormState (BookCreationRequest Metadata)) :
  let r := validateForm (read (useForm.values formState)) validationSchema in
  r.1 = false ∧
  r.2 !! "metadata.title" = Some (Some "Title is required") ∧
  r.2 !! "metadata.author" = Some (Some "Author is required") ∧
  r.2 !! "metadata.theme" = Some (Some "Theme is required") ∧
  (useForm.handleSubmit read validationSchema formState).2 = None ∧
  useForm.form_isValid (useForm.handleSubmit read validationSchema formState).1
  = false.
Proof.
  cbv zeta.
  assert (∀ field validate,
            (field, validate) ∈ validationSchema → field ≠ "__proto__" →
            (validateForm (read (useForm.values formState)) validationSchema).2
              !! field
            = Some (if isValid (validate (read (useForm.values formState) field))
                    then None
                    else error (validate (read (useForm.values formState) field))))
    as Herr.
  { intros field validate Hin Hne.
    by apply ValidationFacts.validateForm_fold_field; [apply schema_NoDup|..]. }
  assert ((validateForm (read (useForm.values formState)) validationSchema).1
          = false) as Hfalse.
  { unfold validateForm. by rewrite ValidationFacts.validateForm_fold_isValid. }
  split; [exact Hfalse|].
  split; [|split; [|split]].
  - rewrite (Herr "metadata.title" title_validator);
      [done|unfold validationSchema; rewrite !elem_of_cons; tauto|done].
  - rewrite (Herr "metadata.author" author_validator);
      [done|unfold validationSchema; rewrite !elem_of_cons; tauto|done].
  - rewrite (Herr "metadata.theme" theme_validator);
      [done|unfold validationSchema; rewrite !elem_of_cons; tauto|done].
  - assert (useForm.validateValues read validationSchema (useForm.values formState)
            = validateForm (read (useForm.values formState)) validationSchema)
      as Hvv by reflexivity.
    unfold useForm.handleSubmit. cbv zeta. rewrite Hvv.
    cbn [fst snd useForm.form_isValid]. by rewrite Hfalse.
Qed.

End BookFormFacts.

(** ** The token: authService.ts and the services that read it *)

Module AuthFacts.
Import Http Effects AuthGuard.

Section Guarded.
Context {J R E : Type}.
Context (API_BASE_URL : string) (axios : Request J → E + R).

(** What holds of every operation of the guarded shape holds of
    [getCurrentUser] and of the eight operations of the batch and Canva
    services. *)
Lemma every_guarded_operation (P : ∀ A, M (J:=J) (E:=E) A → Prop) :
  (∀ A (request : option string → Request J) (finish : R → M (J:=J) (E:=E) A),
     (∀ token, headers (request token) !! "Authorization"
               = Some ("Bearer " +:+ template token)) →
     (∀ r w, (finish r w).2 = w) →
     P A (let* token := getItem "token" in
          if falsy token then throw (Error "No authentication token found")
          else let* response := send axios (request token) in finish response)) →
  P R (authService.getCurrentUser API_BASE_URL axios) ∧
  every_operation API_BASE_URL axios P.
Proof.
  intros H. unfold every_operation. repeat apply conj; intros;
    (apply H; [intros; by simplify_map_eq | intros; apply AuthGuardFacts.ret_pure]).
Qed.

Lemma falsy_spec (token : option string) :
  falsy token = true ↔ token = None ∨ token = Some "".
Proof.
  destruct token as [t|]; cbn; [|by split; [left|]].
  unfold Js.truthy_string. destruct (decide (t = "")) as [->|Hne]; cbn.
  - split; [by right|done].
  - split; [done|]. intros [?|?]; congruence.
Qed.

Lemma truthy_spec (token : option string) :
  falsy token = false ↔ ∃ t, token = Some t ∧ t ≠ "".
Proof.
  rewrite <- not_true_iff_false, falsy_spec. destruct token as [t|].
  - split.
    + intros H. exists t. split; [done|]. intros ->. apply H. by right.
    + intros (t' & [= <-] & Hne) [?|?]; congruence.
  - split; [intros H; destruct H; by left|]. by intros (t & ? & _).
Qed.

(** X13. [isAuthenticated()] tells how [getCurrentUser] and the eight
    operations of the batch and Canva services will go: when it is true the
    operation sends one request, with the stored token as bearer; when it
    is false the operation throws the missing-token error without sending
    anything. *)
Theorem isAuthenticated_decides_guard :
  let P := λ A (c : M (J:=J) (E:=E) A), ∀ w,
    ((authService.isAuthenticated (E:=E) w).1 = inr true →
       sends_with_bearer c w (template (localStorage w !! "token"))) ∧
    ((authService.isAuthenticated (E:=E) w).1 = inr false →
       rejects_without_request c w) in
  P R (authService.getCurrentUser API_BASE_URL axios) ∧
  every_operation API_BASE_URL axios P.
Proof.
  apply every_guarded_operation. intros A request finish Hh Hf w.
  destruct (AuthGuardFacts.guarded_shape axios request finish Hh Hf w)
    as [Hreject Hsend].
  unfold authService.isAuthenticated, bind, getItem, ret. cbn. split.
  - intros [= Hauth]. apply negb_true_iff, truthy_spec in Hauth as (t & Ht & Hne).
    rewrite Ht. by apply Hsend.
  - intros [= Hauth]. apply negb_false_iff, falsy_spec in Hauth.
    by apply Hreject.
Qed.

(** X14. Signing out and signing in take effect at once: after
    [logout()], and after [setToken('')], [getCurrentUser] and each of the
    eight operations throws the missing-token error without sending a
    request; after [setToken(t)] with a non-empty [t] each sends its
    request with [t] as bearer, whatever token was stored before. *)
Theorem token_changes_take_effect :
  let P := λ A (c : M (J:=J) (E:=E) A), ∀ w,
    rejects_without_request c (authService.logout (E:=E) w).2 ∧
    rejects_without_request c (authService.setToken (E:=E) "" w).2 ∧
    (∀ t, t ≠ "" → sends_with_bearer c (authService.setToken (E:=E) t w).2 t) in
  P R (authService.getCurrentUser API_BASE_URL axios) ∧
  every_operation API_BASE_URL axios P.
Proof.
  apply every_guarded_operation. intros A request finish Hh Hf w.
  pose proof (AuthGuardFacts.guarded_shape axios request finish Hh Hf) as Hguard.
  split; [|split].
  - apply (proj1 (Hguard _)). left. cbn. apply lookup_delete_eq.
  - apply (proj1 (Hguard _)). right. cbn. apply lookup_insert_eq.
  - intros t Hne. apply (proj2 (Hguard _)); [|done]. cbn. apply lookup_insert_eq.
Qed.

End Guarded.

End AuthFacts.

(** ** [loadUser] of AuthContext.tsx *)

Module AuthContextFacts.
Import Http Effects AuthGuard AuthContext.

(** X16. [loadUser] never rejects and always ends with [loading] false.
    Without a usable token it sends nothing and leaves the rest of the
    state as it was, a stale [isAuthenticated] included.  With one it asks
    for the current user once: the answer becomes the user and
    [isAuthenticated] true; a rejection removes the token from
    [localStorage], clears the user, and sets the session-expired error. *)
Theorem loadUser_outcome {J User E : Type} (API_BASE_URL : string)
    (axios : Request J → E + User) (s : AuthState User) (w : World J) :
  let request token :=
    mkRequest GET (authService.AUTH_ENDPOINTS.CURRENT_USER API_BASE_URL) NoBody
      {[ "Authorization" := "Bearer " +:+ token ]} in
  let r := loadUser API_BASE_URL axios s w in
  (falsy (localStorage w !! "token") = true →
     r = (inr {| user := user s; loading := false; error := error s;
                 isAuthenticated := isAuthenticated s |}, w)) ∧
  (∀ t userData, localStorage w !! "token" = Some t → t ≠ "" →
     axios (request t) = inr userData →
     r = (inr {| user := Some userData; loading := false; error := error s;
                 isAuthenticated := true |},
          {| localStorage := localStorage w; sent := sent w ++ [request t] |})) ∧
  (∀ t e, localStorage w !! "token" = Some t → t ≠ "" →
     axios (request t) = inl e →
     r = (inr {| user := None; loading := false;
                 error := Some "Session expired. Please log in again.";
                 isAuthenticated := false |},
          {| localStorage := delete "token" (localStorage w);
             sent := sent w ++ [request t] |})).
Proof.
  cbv zeta. unfold loadUser, try_catch, authService.isAuthenticated,
    authService.getCurrentUser, authService.logout, removeItem, bind, getItem,
    ret, throw, send.
  cbn. split; [|split].
  - intros Hfalsy. rewrite Hfalsy. cbn. by destruct w.
  - intros t userData Ht Hne Hok.
    pose proof (JsFacts.truthy_string_nonempty t Hne) as Htruthy.
    by repeat (progress (rewrite ?Ht, ?Htruthy, ?Hok; cbn)).
  - intros t e Ht Hne Herr.
    pose proof (JsFacts.truthy_string_nonempty t Hne) as Htruthy.
    by repeat (progress (rewrite ?Ht, ?Htruthy, ?Herr; cbn)).
Qed.

End AuthContextFacts.

(** ** The interceptors *)

Module InterceptorFacts.
Import Http Effects AuthGuard.

Section Interceptors.
Context {J R E : Type}.
Context (status : E → option Z) (encodeURIComponent : string → string).

(** X17. The request interceptor of api-helpers reads the token and does
    nothing else to the browser; it changes a request at most in its
    [Authorization] header, never replaces a non-empty one, and running it
    a second time changes nothing more. *)
Theorem requestInterceptor_idempotent (config : Request J) (w : World J) :
  ∃ config',
    apiInterceptors.requestInterceptor (E:=E) config w = (inr config', w) ∧
    apiInterceptors.requestInterceptor (E:=E) config' w = (inr config', w) ∧
    method config' = method config ∧
    url config' = url config ∧
    data config' = data config ∧
    (∀ name, name ≠ "Authorization" →
       headers config' !! name = headers config !! name) ∧
    (∀ v, headers config !! "Authorization" = Some v → v ≠ "" →
       config' = config).
Proof.
  unfold apiInterceptors.requestInterceptor, bind, getItem, ret. cbn.
  destruct (falsy (localStorage w !! "token")) eqn:Htoken; cbn.
  - exists config. rewrite ?Htoken. cbn. by repeat split.
  - destruct (falsy (headers config !! "Authorization")) eqn:Hheader; cbn.
    + eexists. split; [reflexivity|]. cbn. rewrite ?Htoken, lookup_insert_eq. cbn.
      repeat split; try done.
      * intros name Hne. by rewrite lookup_insert_ne.
      * intros v Hv Hne. rewrite Hv in Hheader. cbn in Hheader.
        by rewrite (JsFacts.truthy_string_nonempty v Hne) in Hheader.
    + exists config. rewrite ?Htoken, ?Hheader. cbn. by repeat split.
Qed.

Context (API_BASE_URL : string) (axios : Request J → E + R).

(** X18. Neither request interceptor alters a request of [getCurrentUser]
    or of the batch and Canva services: the header those operations set
    is the one the interceptor of authService would write, and the
    interceptor of api-helpers leaves a header that is set alone. *)
Theorem interceptors_keep_guarded_requests :
  let P := λ A (c : M (J:=J) (E:=E) A), ∀ w r,
    sent (c w).2 = sent w ++ [r] →
    apiInterceptors.requestInterceptor (E:=E) r w = (inr r, w) ∧
    authService.requestInterceptor (E:=E) r w = (inr r, w) in
  P R (authService.getCurrentUser API_BASE_URL axios) ∧
  every_operation API_BASE_URL axios P.
Proof.
  apply AuthFacts.every_guarded_operation. intros A request finish Hh Hf w r.
  unfold bind, getItem, throw, send. cbn.
  destruct (falsy (localStorage w !! "token")) eqn:Htoken; cbn.
  - intros Hsent. apply (f_equal length) in Hsent.
    rewrite length_app in Hsent. cbn in Hsent. lia.
  - intros Hsent.
    assert (r = request (localStorage w !! "token")) as ->.
    { destruct (axios _); cbn in Hsent; rewrite ?Hf in Hsent; cbn in Hsent;
        apply app_inv_head in Hsent; congruence. }
    unfold apiInterceptors.requestInterceptor, authService.requestInterceptor,
      bind, getItem, ret. cbn. rewrite Hh. cbn.
    split; [done|]. rewrite insert_id by apply Hh.
    by destruct (request (localStorage w !! "token")).
Qed.

(** X19. The response interceptor always passes the error on.  For a
    status other than 401 it does nothing else.  For 401 it removes the
    token, so that afterwards [getCurrentUser] and the operations of the
    batch and Canva services throw the missing-token error without sending
    anything, and it sends the browser to the login page with the current
    path as return address, unless the browser is on ['/login'] already. *)
Theorem responseErrorInterceptor_signs_out (error : E)
    (win : apiInterceptors.Window J) :
  let r := apiInterceptors.responseErrorInterceptor status encodeURIComponent
             error win in
  let P := λ A (c : M (J:=J) (E:=E) A),
    rejects_without_request c (apiInterceptors.world r.2) in
  r.1 = error ∧
  (status error ≠ Some 401%Z → r.2 = win) ∧
  (status error = Some 401%Z →
     localStorage (apiInterceptors.world r.2) !! "token" = None ∧
     sent (apiInterceptors.world r.2) = sent (apiInterceptors.world win) ∧
     apiInterceptors.pathname r.2 = apiInterceptors.pathname win ∧
     apiInterceptors.assigned r.2
     = (if decide (apiInterceptors.pathname win = "/login")
        then apiInterceptors.assigned win
        else apiInterceptors.assigned win
               ++ ["/login?returnUrl="
                   +:+ encodeURIComponent (apiInterceptors.pathname win)]) ∧
     P R (authService.getCurrentUser API_BASE_URL axios) ∧
     every_operation API_BASE_URL axios P).
Proof.
  intros r P. subst r. unfold apiInterceptors.responseErrorInterceptor in *.
  cbn [fst snd] in *.
  split; [done|]. split.
  - intros Hne. by rewrite bool_decide_eq_false_2.
  - intros H401. subst P. rewrite bool_decide_eq_true_2 by done.
    cbn [apiInterceptors.world apiInterceptors.pathname apiInterceptors.assigned].
    split; [apply lookup_delete_eq|]. split; [done|]. split; [done|]. split.
    + destruct (decide (apiInterceptors.pathname win = "/login")) as [Hp|Hp].
      * by rewrite bool_decide_eq_false_2 by (intros Hq; by apply Hq).
      * by rewrite bool_decide_eq_true_2.
    + apply (AuthFacts.every_guarded_operation API_BASE_URL axios
               (λ A c, rejects_without_request c
                         (removeItem (E:=E) "token" (apiInterceptors.world win)).2)).
      intros A request finish Hh Hf.
      apply (proj1 (AuthGuardFacts.guarded_shape axios request finish Hh Hf _)).
      left. cbn. apply lookup_delete_eq.
Qed.

End Interceptors.
End InterceptorFacts.

(** ** The blob requests of booksService.ts *)

Module BooksFacts.
Import Http AuthGuard booksOperations.

Section Service.
Context {J R : Type}.
Context (API_BASE_URL : string) (axios : Request J → apiHelpers.Caught + R).

(** Both blob requests: read the token, send, return the data. *)
Lemma unguarded_shape (request : option string → Request J) (w : World J) :
  (let* token := getItem "token" in
   let* response := send axios (request token) in
   ret response) w
  = (match axios (request (localStorage w !! "token")) with
     | inr d => inr d
     | inl e => inl (AxiosError e)
     end,
     {| localStorage := localStorage w;
        sent := sent w ++ [request (localStorage w !! "token")] |}).
Proof. unfold bind, getItem, send, ret. cbn. by destruct (axios _). Qed.

(** X20. [getBookPreview] and [downloadBook] have no token guard: they
    always send their request, whatever is stored, and its
    [Authorization] header is ['Bearer '] followed by what
    [localStorage.getItem('token')] prints as, which without a token is
    ['Bearer null']; they never throw the missing-token error, and a
    rejection of axios is passed on as it is. *)
Theorem blob_requests_unguarded (bookId : string) (format : Format) (w : World J) :
  let P := λ (c : M (J:=J) (E:=apiHelpers.Caught) R),
    (∃ r, sent (c w).2 = sent w ++ [r] ∧
          headers r !! "Authorization"
          = Some ("Bearer " +:+ template (localStorage w !! "token")) ∧
          (localStorage w !! "token" = None →
             headers r !! "Authorization" = Some "Bearer null") ∧
          (c w).1 = match axios r with
                    | inr d => inr d
                    | inl e => inl (AxiosError e)
                    end) ∧
    ¬ rejects_without_request c w in
  P (getBookPreview API_BASE_URL axios bookId) ∧
  P (downloadBook API_BASE_URL axios bookId format).
Proof.
  cbv zeta. unfold getBookPreview, downloadBook, rejects_without_request.
  rewrite !unguarded_shape. cbn [fst snd sent].
  split; (split;
    [eexists; split; [reflexivity|]; cbn [headers]; rewrite lookup_singleton_eq;
       split; [done|]; split; [by intros ->|done]
    |intros (_ & Hsent & _); apply (f_equal length) in Hsent;
       rewrite length_app in Hsent; cbn in Hsent; lia]).
Qed.

End Service.
End BooksFacts.

(** ** The page and its tracker *)

Module PageFacts.
Import generationService GenerationProgressTracker BookCreatePage BookCreatePageView.

Open Scope Z_scope.

(** [Math.floor] gives the one whole number that is at most [x] and more
    than [x - 1]. *)
Lemma Math_floor_unique (x : Q) (z : Z) :
  (inject_Z z <= x)%Q → (x < inject_Z (z + 1))%Q → Math_floor x = z.
Proof.
  intros Hle Hlt. unfold Math_floor.
  pose proof (Qfloor_le x) as H1. pose proof (Qlt_floor x) as H2.
  assert (inject_Z z < inject_Z (Qfloor x + 1))%Q as Ha by lra.
  assert (inject_Z (Qfloor x) < inject_Z (z + 1))%Q as Hb by lra.
  rewrite <- Zlt_Qlt in Ha, Hb. lia.
Qed.

Lemma Math_floor_minutes (t : Q) :
  (0 <= t)%Q → Math_floor (t / 60) = Math_floor t / 60.
Proof.
  intros Ht. apply Math_floor_unique.
  - pose proof (Qfloor_le t) as H1.
    assert (60 * (Math_floor t / 60) ≤ Qfloor t) as H.
    { unfold Math_floor. apply Z.mul_div_le. lia. }
    rewrite Zle_Qle, inject_Z_mult in H. change (inject_Z 60) with 60%Q in H.
    apply Qle_shift_div_l; [reflexivity|]. lra.
  - pose proof (Qlt_floor t) as H2.
    assert (Qfloor t + 1 ≤ 60 * (Math_floor t / 60 + 1)) as H.
    { unfold Math_floor.
      pose proof (Z.mod_pos_bound (Qfloor t) 60 ltac:(lia)).
      pose proof (Z.div_mod (Qfloor t) 60 ltac:(lia)). lia. }
    rewrite Zle_Qle, inject_Z_mult in H. change (inject_Z 60) with 60%Q in H.
    apply Qlt_shift_div_r; [reflexivity|]. lra.
Qed.

Lemma Math_floor_seconds (t : Q) :
  (0 <= t)%Q → Math_floor (remainder t 60) = Math_floor t mod 60.
Proof.
  intros Ht. unfold remainder. cbv zeta.
  assert (Qle_bool 0 (t / 60) = true) as ->.
  { apply Qle_bool_iff. apply Qle_shift_div_l; lra. }
  fold (Math_floor (t / 60)). rewrite Math_floor_minutes by done.
  pose proof (Z.div_mod (Math_floor t) 60 ltac:(lia)) as Hdm.
  pose proof (Qfloor_le t) as H1. pose proof (Qlt_floor t) as H2.
  fold (Math_floor t) in H1, H2.
  assert (inject_Z (Math_floor t mod 60)
          == inject_Z (Math_floor t) - 60 * inject_Z (Math_floor t / 60))%Q as He.
  { replace (Math_floor t mod 60) with (Math_floor t + - (60 * (Math_floor t / 60)))
      by lia.
    rewrite inject_Z_plus, inject_Z_opp, inject_Z_mult.
    change (inject_Z 60) with 60%Q. lra. }
  rewrite inject_Z_plus in H2.
  apply Math_floor_unique; [|rewrite inject_Z_plus]; lra.
Qed.

(** X21. A positive estimate of [t] seconds, whole or not, is shown as
    the minutes and seconds of its whole part [Math.floor(t)]: these add
    up to [Math.floor(t)], the seconds are below 60, and the minutes are
    left out exactly when [t] is below 60; so the part of a second that
    [t] has beyond its whole seconds is not shown.  No estimate and an
    estimate of 0 show nothing. *)
Theorem formatTimeRemaining_positive (t : Q) :
  (0 < t)%Q →
  formatTimeRemaining (Some t)
  = TimeEstimate (if decide (60 ≤ Math_floor t) then Some (Math_floor t / 60) else None)
                 (Math_floor t mod 60) ∧
  0 ≤ Math_floor t mod 60 < 60 ∧
  60 * (Math_floor t / 60) + Math_floor t mod 60 = Math_floor t ∧
  (inject_Z (Math_floor t) <= t < inject_Z (Math_floor t) + 1)%Q ∧
  formatTimeRemaining None = NoFooter ∧
  formatTimeRemaining (Some 0%Q) = NoFooter.
Proof.
  intros Ht. unfold formatTimeRemaining.
  assert (Qeq_bool t 0 = false) as ->.
  { apply not_true_is_false. intros H. apply Qeq_bool_iff in H. lra. }
  cbv zeta. rewrite Math_floor_minutes, Math_floor_seconds by lra.
  assert (0 ≤ Math_floor t) as Hnn.
  { unfold Math_floor. change 0 with (Qfloor 0). apply Qfloor_resp_le. lra. }
  repeat split; try (apply Z.mod_pos_bound; lia).
  - f_equal.
    destruct (decide (0 < Math_floor t / 60)) as [Hm|Hm],
             (decide (60 ≤ Math_floor t)) as [Hs|Hs]; try done.
    + rewrite Z.div_small in Hm by lia. lia.
    + exfalso. apply Hm. apply Z.div_str_pos. lia.
  - symmetry. apply Z.div_mod. lia.
  - apply Qfloor_le.
  - pose proof (Qlt_floor t) as H. rewrite inject_Z_plus in H. exact H.
Qed.

Lemma formatTimeRemaining_positive_witness :
  formatTimeRemaining (Some (181 # 2)%Q) = TimeEstimate (Some 1) 30.
Proof. apply (formatTimeRemaining_positive (181 # 2)%Q). reflexivity. Defined.

(** Half a second is shown as '0s'. *)
Example half_a_second :
  formatTimeRemaining (Some (1 # 2)%Q) = TimeEstimate None 0.
Proof. reflexivity. Qed.

Section Page.
Context {Book : Type}.

(** X22. When the generation call has settled the page shows: after
    success, the preview of the book that came back; after a failure, the
    tracker, still on the generating step with Cancel enabled, with the
    thrown error's message as error message, or, when that message is
    empty, with a progress bar at 0 under the step 'Generation failed'. *)
Theorem page_after_generation (settled : apiHelpers.Caught + Book)
    (s : PageState Book) :
  render <$> last (handleStartGeneration settled s)
  = Some match settled with
         | inr book => PreviewView book
         | inl err =>
             GeneratingView
               (if decide (error_text err = "")
                then ProgressView 0 (Some "Generation failed") NoFooter
                else ErrorMessage (error_text err))
               false
         end.
Proof.
  destruct settled as [err|book]; cbn; [|done].
  unfold render, renderContent, tracker_props. cbn.
  unfold Js.truthy_string. by destruct (decide (error_text err = "")).
Qed.

(** What every state of the page satisfies. *)
Lemma visited_invariant (s : PageState Book) :
  visited s →
  status (generationProgress s) ≠ generating ∧
  (activeStep s = step_preview → generatedBook s ≠ None).
Proof.
  induction 1 as [|e s s' _ [IHst IHbook] Hin]; [by split|].
  destruct e as [settled|]; cbn in Hin.
  - destruct settled as [err|book]; cbn in Hin;
      repeat (apply elem_of_cons in Hin as [->|Hin]; [by split|]);
      by apply elem_of_nil in Hin.
  - apply list_elem_of_singleton in Hin as ->. by split.
Qed.

(** X23. No state the page can reach has the status 'generating', and
    none is on the preview step without a book.  So the page always shows
    one of its three sections, its Cancel button, which is disabled only
    while the status is 'generating', is never disabled, and the tracker
    never shows a time estimate. *)
Theorem page_never_generating (s : PageState Book) :
  visited s →
  status (generationProgress s) ≠ generating ∧
  render s ≠ NoView ∧
  (∀ content disabled, render s = GeneratingView content disabled →
     disabled = false ∧
     ∀ p step minutes seconds,
       content ≠ ProgressView p step (TimeEstimate minutes seconds)).
Proof.
  intros Hv. destruct (visited_invariant s Hv) as [Hst Hbook].
  split; [done|]. unfold render. split.
  - destruct (activeStep s); try done.
    destruct (generatedBook s); [done|]. by destruct Hbook.
  - intros content disabled Hr.
    destruct (activeStep s); try done; [|by destruct (generatedBook s)].
    injection Hr as <- <-. split; [by apply bool_decide_eq_false|].
    intros p step minutes seconds. unfold renderContent, tracker_props. cbn.
    repeat case_match; done.
Qed.

End Page.

Lemma page_never_generating_witness :
  render (Book:=string)
    (setActiveStep step_generating
       (setGenerationProgress
          (progress_literal preparing "Preparing generation parameters" 5 None)
          initial_state))
  ≠ NoView.
Proof.
  refine (proj1 (proj2 (page_never_generating _ _))).
  apply (visited_event (GenerateBook (inr "book")) initial_state);
    [apply visited_initial|].
  cbn. rewrite !elem_of_cons. tauto.
Defined.

End PageFacts.

(** ** [mockGeneration] *)

Module MockFacts.
Import booksService generationService mockGeneration.

Section Mock.
Context (now : Z) (created updated : string) (RangeError_message : string).

Lemma page_id_inj (settings : GenerationSettingsData Z) :
  Inj (=) (=) (λ i, page_id (page settings i)).
Proof.
  intros i j Hij. cbn [page_id page] in Hij.
  apply (inj (String.app "page-")) in Hij. by apply (inj pretty) in Hij.
Qed.

(** X24. For a page count [n] that [Array(n)] accepts, [mockGeneration]
    returns a book whose metadata is [convertToBookMetadata(settings)] and
    that has exactly [n] pages: the page at index [i] has number [i + 1]
    and id ['page-' + i], the ids are pairwise different, and the first
    page carries the theme.  For any other count it rejects with the
    [RangeError]. *)
Theorem mockGeneration_pages (settings : GenerationSettingsData Z) :
  ((0 ≤ pagesCount settings < 2 ^ 32)%Z →
   ∃ book,
     mockGeneration now created updated RangeError_message settings = inr book ∧
     metadata book = convertToBookMetadata settings ∧
     length (pages book) = Z.to_nat (pagesCount settings) ∧
     (∀ i p, pages book !! i = Some p →
        page_number p = (Z.of_nat i + 1)%Z ∧
        page_id p = "page-" +:+ pretty i) ∧
     (∀ p, pages book !! 0 = Some p → content p = settings_theme settings) ∧
     NoDup (page_id <$> pages book)) ∧
  (¬ (0 ≤ pagesCount settings < 2 ^ 32)%Z →
   mockGeneration now created updated RangeError_message settings
   = inl (apiHelpers.CaughtError RangeError_message)).
Proof.
  unfold mockGeneration. split; intros Hn.
  - rewrite bool_decide_eq_true_2 by done. eexists. split; [reflexivity|]. cbn.
    split; [done|]. split; [by rewrite length_fmap, length_seq|].
    split; [|split].
    + intros i p Hp. apply list_lookup_fmap_Some_1 in Hp as (j & -> & Hj).
      apply lookup_seq in Hj as [-> _]. done.
    + intros p Hp. apply list_lookup_fmap_Some_1 in Hp as (j & -> & Hj).
      apply lookup_seq in Hj as [-> _]. done.
    + rewrite <- list_fmap_compose.
      apply (NoDup_fmap_2_strong _); [|apply NoDup_seq].
      intros i j _ _. apply page_id_inj.
  - by rewrite bool_decide_eq_false_2.
Qed.

End Mock.

Example mockGeneration_three_pages :
  match mockGeneration 1700000000000 "c" "u" "Invalid array length"
          (mkGenerationSettingsData Z "adventure" "5-8" "english"
             "Magic and Adventure" "A brave child" "cartoon" "" 3%Z) with
  | inr book => (λ p, (page_id p, page_number p)) <$> pages book
  | inl _ => []
  end
  = [("page-0", 1%Z); ("page-1", 2%Z); ("page-2", 3%Z)].
Proof. vm_compute. reflexivity. Qed.

End MockFacts.

(** ** [APIFallbackHandler] *)

Module FallbackFacts.
Import APIFallbackHandler.

Section Handler.
Context {V Exn : Type}.

(** X25. [request_loop] ends at the first provider whose call does not
    raise an [Exception]: it returns the value the call returns, or lets
    escape, without a warning, the exception that [except Exception] does
    not catch.  The providers before it, none of them named 'fallback',
    have each been called once and each [Exception] has been logged as a
    warning, in order; no provider after it is called. *)
Theorem request_loop_first_success
    (before after : list (string * Outcome V Exn)) (name : string)
    (o : Outcome V Exn) (st : Run Exn) :
  Forall (λ p, p.1 ≠ "fallback" ∧ ∃ e, p.2 = Raises e) before →
  (∀ e, o ≠ Raises e) →
  request_loop (before ++ (name, o) :: after) st
  = (ends_with o,
     {| called := called st ++ before.*1 ++ [name];
        warned := warned st ++ failures before |}).
Proof.
  revert st. induction before as [|[n o'] before IH]; intros st Hall Ho.
  - cbn. rewrite app_nil_r. destruct o as [v|e|e]; [done| |done].
    by destruct (Ho e).
  - apply Forall_cons in Hall as [[Hne [e He]] Hall]. cbn in Hne, He. subst o'.
    cbn. destruct (decide (n = "fallback")); [done|].
    rewrite IH by done. cbn. by rewrite <- !app_assoc.
Qed.

(** X26. [make_request] never ends with 'All API providers failed': the
    loop is left at the 'fallback' provider at the latest.  When the first
    two providers raise an [Exception], the exception that escapes is the
    one the fallback provider raised, after three calls; it has been
    logged as a warning, like the two before it, only if it is an
    [Exception]. *)
Theorem make_request_never_all_failed
    (primary_api_call secondary_api_call fallback_api_call : Outcome V Exn) :
  (make_request primary_api_call secondary_api_call fallback_api_call).1
  ≠ AllFailed ∧
  (∀ e1 e2 e3,
     primary_api_call = Raises e1 → secondary_api_call = Raises e2 →
     (fallback_api_call = Raises e3 →
      make_request primary_api_call secondary_api_call fallback_api_call
      = (Escaped e3,
         {| called := ["primary"; "secondary"; "fallback"];
            warned := [("primary", e1); ("secondary", e2); ("fallback", e3)] |})) ∧
     (fallback_api_call = Escapes e3 →
      make_request primary_api_call secondary_api_call fallback_api_call
      = (Escaped e3,
         {| called := ["primary"; "secondary"; "fallback"];
            warned := [("primary", e1); ("secondary", e2)] |}))).
Proof.
  split.
  - by destruct primary_api_call, secondary_api_call, fallback_api_call.
  - intros e1 e2 e3 -> ->. by split; intros ->.
Qed.

End Handler.

Lemma request_loop_first_success_witness :
  make_request (V:=Z) (Raises "timeout") (Escapes "CancelledError") (Returns 9%Z)
  = (Escaped "CancelledError",
     {| called := ["primary"; "secondary"]; warned := [("primary", "timeout")] |}).
Proof.
  apply (request_loop_first_success (V:=Z) [("primary", Raises "timeout")]
           [("fallback", Returns 9%Z)] "secondary" (Escapes "CancelledError") start).
  - repeat constructor; [discriminate|by eexists].
  - discriminate.
Defined.

Example secondary_answers :
  make_request (V:=Z) (Raises "timeout") (Returns 7%Z) (Returns 9%Z)
  = (Returned 7%Z,
     {| called := ["primary"; "secondary"]; warned := [("primary", "timeout")] |}).
Proof. reflexivity. Qed.

End FallbackFacts.

(** ** Polling a Canva job *)

Module PollingFacts.
Import CanvaPolling.

Section Polling.
Context {Res : Type} (get_job : nat → string → Job Res).

Lemma poll_settles (job : Job Res) (k : nat) : ∀ fuel n zs,
  (∀ i, (i < k)%nat → job_status (job_after get_job job (n + i)) = "in_progress") →
  job_status (job_after get_job job (n + k)) ≠ "in_progress" →
  (k < fuel)%nat →
  poll get_job fuel (job_after get_job job n) n zs
  = Some {| returned := job_result (job_after get_job job (n + k));
            polls := n + k; slept := zs ++ replicate k 2%Z |}.
Proof.
  induction k as [|k IH]; intros fuel n zs Hbusy Hdone Hfuel;
    (destruct fuel as [|fuel]; [lia|]); cbn.
  - rewrite Nat.add_0_r in *. rewrite app_nil_r.
    by destruct (decide (job_status (job_after get_job job n) = "in_progress")).
  - pose proof (Hbusy 0%nat ltac:(lia)) as H0. rewrite Nat.add_0_r in H0.
    destruct (decide (job_status (job_after get_job job n) = "in_progress"));
      [|done].
    change (get_job n (job_id (job_after get_job job n)))
      with (job_after get_job job (S n)).
    rewrite (IH fuel (S n)); [| |by replace (S n + k)%nat with (n + S k)%nat by lia|lia].
    + replace (S n + k)%nat with (n + S k)%nat by lia.
      by rewrite <- app_assoc.
    + intros i Hi. replace (S n + i)%nat with (n + S i)%nat by lia.
      apply Hbusy. lia.
Qed.

Lemma poll_busy (job : Job Res) : ∀ fuel n zs,
  (∀ i, job_status (job_after get_job job i) = "in_progress") →
  poll get_job fuel (job_after get_job job n) n zs = None.
Proof.
  induction fuel as [|fuel IH]; intros n zs Hbusy; cbn; [done|].
  rewrite decide_True by apply Hbusy.
  change (get_job n (job_id (job_after get_job job n)))
    with (job_after get_job job (S n)).
  by apply IH.
Qed.

(** X27. [autofill_design] and [export_design] poll until the job is no
    longer 'in_progress': if that is first so after [k] polls they return
    that job's result, whatever its status then is, after exactly [k]
    polls and [k] sleeps of 2 seconds; while the job stays 'in_progress'
    they never return. *)
Theorem polling_returns_first_settled (job : Job Res) :
  (∀ k fuel,
     (∀ i, (i < k)%nat → job_status (job_after get_job job i) = "in_progress") →
     job_status (job_after get_job job k) ≠ "in_progress" →
     (k < fuel)%nat →
     autofill_design get_job fuel job
     = Some {| returned := job_result (job_after get_job job k);
               polls := k; slept := replicate k 2%Z |} ∧
     export_design get_job fuel job = autofill_design get_job fuel job) ∧
  ((∀ i, job_status (job_after get_job job i) = "in_progress") →
   ∀ fuel, autofill_design get_job fuel job = None ∧
           export_design get_job fuel job = None).
Proof.
  split.
  - intros k fuel Hbusy Hdone Hfuel. split; [|done].
    apply (poll_settles job k fuel 0 []); done.
  - intros Hbusy fuel. split; by apply (poll_busy job fuel 0 []).
Qed.

End Polling.

Example polling_failed_job :
  autofill_design
    (λ n _, if (n <? 2)%nat then mkJob "j" "in_progress" "" else mkJob "j" "failed" "none")
    5 (mkJob "j" "in_progress" "")
  = Some {| returned := "none"; polls := 3; slept := [2; 2; 2]%Z |}.
Proof. reflexivity. Qed.

End PollingFacts.

(** ** The operations that go through [apiRequest] *)

Module ApiOperationFacts.
Import Http ApiOperations.

Section Operations.
Context {J R : Type}.
Context (API_BASE_URL : string).
Context (axios : Request J → apiHelpers.Caught + R).
Context (axios_status
  : Request J → apiHelpers.Caught + generationService.GenerationStatusResponse).

Lemma apiRequest_run {R' : Type} (server : Request J → apiHelpers.Caught + R')
    (config : Request J) (w : World J) :
  apiHelpers.apiRequest server config w
  = (match server config with
     | inr d => inr d
     | inl e => inl (Error (apiHelpers.formatErrorMessage e))
     end,
     {| localStorage := localStorage w; sent := sent w ++ [config] |}).
Proof. unfold apiHelpers.apiRequest, send. cbn. by destruct (server config). Qed.

(** X28. The three operations of generationService and the operations of
    booksService that call [apiRequest] have no token guard and set no
    header: whatever [localStorage] holds, each sends exactly one request
    without headers, so a token reaches the server only through the
    request interceptor, which adds ['Bearer ' + token] exactly when a
    non-empty token is stored.  When axios rejects, the caller gets an
    [Error] with the formatted message. *)
Theorem api_operations_bare :
  every_operation API_BASE_URL axios axios_status
    (λ A R' server c, ∀ w,
       sends_bare server c w ∧
       ∀ r, sent (c w).2 = sent w ++ [r] →
         ∃ r', apiInterceptors.requestInterceptor (E:=apiHelpers.Caught) r w
               = (inr r', w) ∧
               headers r' !! "Authorization"
               = if falsy (localStorage w !! "token") then None
                 else Some ("Bearer " +:+ template (localStorage w !! "token"))).
Proof.
  assert (∀ R' (server : Request J → apiHelpers.Caught + R') config w,
            headers config = ∅ →
            sends_bare server (apiHelpers.apiRequest server config) w ∧
            ∀ r, sent (apiHelpers.apiRequest server config w).2 = sent w ++ [r] →
              ∃ r', apiInterceptors.requestInterceptor (E:=apiHelpers.Caught) r w
                    = (inr r', w) ∧
                    headers r' !! "Authorization"
                    = if falsy (localStorage w !! "token") then None
                      else Some ("Bearer " +:+ template (localStorage w !! "token")))
    as Hshape.
  { intros R' server config w Hheaders. unfold sends_bare.
    rewrite !apiRequest_run. cbn [fst snd sent localStorage]. split.
    - exists config. repeat split; try done.
      destruct (server config); [done|by eexists].
    - intros r Hsent. cbn in Hsent. apply app_inv_head in Hsent.
      injection Hsent as <-.
      unfold apiInterceptors.requestInterceptor, bind, getItem, ret. cbn.
      rewrite Hheaders, lookup_empty. cbn. rewrite andb_true_r.
      destruct (falsy (localStorage w !! "token")); cbn.
      + eexists. split; [done|]. by rewrite Hheaders.
      + eexists. split; [done|]. cbn. by rewrite lookup_insert_eq. }
  unfold every_operation. repeat apply conj; intros; try (by apply Hshape).
  (* [cancelGeneration] discards the answer *)
  destruct (Hshape R axios
              (mkRequest POST
                 (generationService.GENERATION_ENDPOINTS.CANCEL API_BASE_URL
                    +:+ "/" +:+ bookId) NoBody ∅) w eq_refl) as [Hbare Hint].
  assert (∀ w', (generationService.cancelGeneration API_BASE_URL axios bookId w').2
                = (apiHelpers.apiRequest axios
                     (mkRequest POST
                        (generationService.GENERATION_ENDPOINTS.CANCEL API_BASE_URL
                           +:+ "/" +:+ bookId) NoBody ∅) w').2) as Hworld.
  { intros w'. unfold generationService.cancelGeneration, bind, ret.
    rewrite apiRequest_run. by destruct (axios _). }
  split.
  - destruct Hbare as (r & Hsent & Hls & Hh & Hres). exists r.
    rewrite Hworld. repeat split; try done.
    unfold generationService.cancelGeneration, bind, ret.
    destruct (apiHelpers.apiRequest axios _ w) as [res w']. cbn in Hres |- *.
    destruct (axios r); [by rewrite Hres|].
    destruct Hres as [a ->]. by eexists.
  - intros r Hsent. apply Hint. by rewrite <- Hworld.
Qed.

End Operations.
End ApiOperationFacts.

(** ** What the guarded operations hand back *)

Module GuardedResultFacts.
Import Http Effects AuthGuard.

Section Guarded.
Context {J R E : Type}.
Context (API_BASE_URL : string) (axios : Request J → E + R).

(** As [AuthFacts.every_guarded_operation], for operations that end by
    returning a value computed from the response. *)
Lemma every_returning_operation (P : ∀ A, M (J:=J) (E:=E) A → Prop) :
  (∀ A (request : option string → Request J) (f : R → A)
     (finish : R → M (J:=J) (E:=E) A),
     (∀ response, finish response = ret (f response)) →
     P A (let* token := getItem "token" in
          if falsy token then throw (Error "No authentication token found")
          else let* response := send axios (request token) in finish response)) →
  P R (authService.getCurrentUser API_BASE_URL axios) ∧
  every_operation API_BASE_URL axios P.
Proof.
  intros H. unfold every_operation.
  repeat apply conj; intros;
    first [by eapply (H _ _ (λ response, response))
          | by eapply (H _ _ (λ _, ()))].
Qed.

(** X29. With a non-empty token stored, [getCurrentUser] and each
    operation of the batch and Canva services resolves when axios answers
    and otherwise rejects with exactly what axios rejected with: the error
    is neither wrapped nor formatted on the way, and [localStorage] is left
    as it was. *)
Theorem guarded_operations_pass_rejections :
  let P := λ A (c : M (J:=J) (E:=E) A), ∀ w t,
    localStorage w !! "token" = Some t → t ≠ "" →
    ∃ r, sent (c w).2 = sent w ++ [r] ∧
         localStorage (c w).2 = localStorage w ∧
         match axios r with
         | inr _ => ∃ a, (c w).1 = inr a
         | inl e => (c w).1 = inl (AxiosError e)
         end in
  P R (authService.getCurrentUser API_BASE_URL axios) ∧
  every_operation API_BASE_URL axios P.
Proof.
  apply every_returning_operation. intros A request f finish Hfinish w t Ht Hne.
  unfold bind, getItem, throw, send. cbn. rewrite Ht. cbn.
  rewrite (JsFacts.truthy_string_nonempty t Hne). cbn.
  exists (request (Some t)).
  destruct (axios (request (Some t))); cbn; rewrite ?Hfinish; cbn;
    repeat split; try done.
  by eexists.
Qed.

End Guarded.
End GuardedResultFacts.

(** ** The metadata conversions, the other way round *)

Module SettingsFacts.
Import booksService generationService.

Lemma or_empty_or_undefined (s : string) :
  Js.or_empty (Js.or_undefined s) = s.
Proof.
  unfold Js.or_undefined, Js.or_empty, Js.truthy_string.
  destruct (decide (s = "")) as [->|Hne]; cbn; [done|].
  unfold Js.truthy_string. by destruct (decide (s = "")).
Qed.

(** X30. Settings that go to metadata and back keep their age range,
    theme, additional notes and page count; the story type comes back as
    'coloring' or 'story', the language as 'english', the characters empty
    and the illustration style as 'cartoon'.  Going there and back a
    second time changes nothing more. *)
Theorem settings_round_trip {number : Type} (settings : GenerationSettingsData number) :
  let back := convertFromBookMetadata (convertToBookMetadata settings) in
  back = {| storyType := if decide (storyType settings = "coloring")
                         then "coloring" else "story";
            ageRange := ageRange settings;
            language := "english";
            settings_theme := settings_theme settings;
            characters := "";
            illustrationStyle := "cartoon";
            additionalNotes := additionalNotes settings;
            pagesCount := pagesCount settings |} ∧
  convertFromBookMetadata (convertToBookMetadata back) = back.
Proof.
  cbv zeta. unfold convertFromBookMetadata, convertToBookMetadata. cbn.
  rewrite !or_empty_or_undefined. split; [done|].
  f_equal. by destruct (decide (storyType settings = "coloring")).
Qed.

End SettingsFacts.
